(** * UniversalSpeech: a Python binding of the UniversalSpeech native library

    Shallow embedding of [UniversalSpeech/load.py] (class [Loader]) and
    [UniversalSpeech/__init__.py] (class [UniversalSpeech]).

    - Python [int] is [Z]; [str] is [string]; a [c_wchar_p] result is
      [option string] ([None] for a NULL pointer).
    - The loader runs against a file system ([gmap] from paths to nodes) and
      the dynamic linker of the process, and logs the modules it opens.
    - The facade runs in a state-and-exception monad over the (opaque) state
      of the native library; every foreign call is appended to a log together
      with its reply: the value it returned (a failure status is such a
      value) or the exception ctypes raised in its place.
    - The [while True] loop of [get_engines] is a fuelled fixpoint; running
      out of fuel is a distinct outcome, never a result. *)

From Stdlib Require Import ZArith List Bool Lia.
From stdpp Require Import base option list strings gmap.

Local Open Scope string_scope.
Local Open Scope list_scope.
Local Open Scope Z_scope.

(** ** Outcomes of running Python code *)

(** Modelled from the spec: the module [UniversalSpeech/exceptions.py] is not
    part of the sources at hand; its two classes are the error kinds the spec
    calls MissingDependency ([DLLFileNotFoundError], raised by the loader)
    and UnsupportedCapability ([UnsupportedError], raised by the setters).
    [AttributeError], [NotADirectoryError] and [OSError] are Python
    built-ins. *)
Inductive exn : Type :=
| DLLFileNotFoundError (msg : string)
| UnsupportedError (msg : string)
| AttributeError (obj attr : string)
| NotADirectoryError
| OSError (msg : string).

Inductive outcome (A : Type) : Type :=
| Ret (a : A)
| Exc (e : exn)
| OutOfFuel.
Arguments Ret {A} a.
Arguments Exc {A} e.
Arguments OutOfFuel {A}.

(** How a foreign call ends: the function returns a value, or the call
    raises (ctypes turns a fault inside the library into [OSError]). *)
Inductive reply (A : Type) : Type :=
| Returned (a : A)
| Raised (e : exn).
Arguments Returned {A} a.
Arguments Raised {A} e.

Definition outcome_of {A} (r : reply A) : outcome A :=
  match r with
  | Returned a => Ret a
  | Raised e => Exc e
  end.

(** ** load.py *)

Module Loader.

(** A path is the list of its components; [os.path.join p c] appends one. *)
Definition Path : Type := list string.

Definition path_join (p : Path) (c : string) : Path := p ++ [c].

(** What sits at a path: a regular file, or a directory with the names
    [os.listdir] returns for it. *)
Inductive Node : Type :=
| File
| Dir (entries : list string).

(** What the loader reads from its environment: [__file__]'s directory,
    [platform.architecture()[0]] and the file system. *)
Record Env : Type := {
  current_dir : Path;
  architecture : string;
  fs : gmap Path Node
}.

(** A [ctypes.CDLL] object, identified by the path it was opened from. *)
Record CDLL : Type := { dll_path : Path }.

(** What [ctypes.CDLL(path)] does in this process: [None] when the module
    opens, the exception it raises otherwise ([OSError] when the file is
    not a module the process can load). *)
Definition Linker : Type := Path -> option exn.

(** The modules opened so far in the process, oldest first. *)
Definition Process : Type := list Path.

Definition dll_files : list string :=
  ["dolapi.dll"; "jfwapi.dll"; "nvdaControllerClient.dll"; "SAAPI32.dll";
   "UniversalSpeech.dll"; "UniversalSpeech.tlb"].

Definition lib_folder (e : Env) : string :=
  if String.eqb (architecture e) "64bit" then "lib64" else "lib".

(** [os.path.exists] *)
Definition os_path_exists (e : Env) (p : Path) : bool :=
  match fs e !! p with
  | Some _ => true
  | None => false
  end.

(** [os.listdir]; only called on a path that exists. *)
Definition os_listdir (e : Env) (p : Path) : outcome (list string) :=
  match fs e !! p with
  | Some (Dir entries) => Ret entries
  | _ => Exc NotADirectoryError
  end.

(** [x in l] on a list of strings *)
Definition py_in (x : string) (l : list string) : bool :=
  existsb (String.eqb x) l.

(** The [for file in self.__dll_files] loop of [_files_check]. *)
Fixpoint files_loop (files current_dll_files : list string) : bool :=
  match files with
  | [] => true
  | file :: rest =>
      if negb (py_in file current_dll_files) then false
      else files_loop rest current_dll_files
  end.

Definition _files_check (e : Env) : outcome bool :=
  let lib_folder := path_join (current_dir e) (lib_folder e) in
  if negb (os_path_exists e lib_folder) then Ret false
  else
    match os_listdir e lib_folder with
    | Ret current_dll_files => Ret (files_loop dll_files current_dll_files)
    | Exc x => Exc x
    | OutOfFuel => OutOfFuel
    end.

Definition load (dlopen : Linker) (e : Env) (opened : Process)
  : outcome CDLL * Process :=
  match _files_check e with
  | Ret ok =>
      if negb ok then (Exc (DLLFileNotFoundError "Missing dll files."), opened)
      else
        let dll_path :=
          path_join (path_join (current_dir e) (lib_folder e))
                    "UniversalSpeech.dll" in
        match dlopen dll_path with
        | None => (Ret {| dll_path := dll_path |}, opened ++ [dll_path])
        | Some x => (Exc x, opened)
        end
  | Exc x => (Exc x, opened)
  | OutOfFuel => (OutOfFuel, opened)
  end.

End Loader.

(** ** __init__.py *)

Module UniversalSpeech.

(** [range(lo, hi)] and the tuple assignment that unpacks it. *)
Definition py_range (lo hi : Z) : list Z :=
  map (fun k => lo + Z.of_nat k) (seq 0 (Z.to_nat (hi - lo))).

Definition unpack (k : nat) : Z := nth k (py_range 0 22) (-1).

(** Identifiers for parameters *)
Definition VOLUME : Z := unpack 0.
Definition VOLUME_MAX : Z := unpack 1.
Definition VOLUME_MIN : Z := unpack 2.
Definition VOLUME_SUPPORTED : Z := unpack 3.
Definition RATE : Z := unpack 4.
Definition RATE_MAX : Z := unpack 5.
Definition RATE_MIN : Z := unpack 6.
Definition RATE_SUPPORTED : Z := unpack 7.
Definition PITCH : Z := unpack 8.
Definition PITCH_MAX : Z := unpack 9.
Definition PITCH_MIN : Z := unpack 10.
Definition PITCH_SUPPORTED : Z := unpack 11.
Definition INFLEXION : Z := unpack 12.
Definition INFLEXION_MAX : Z := unpack 13.
Definition INFLEXION_MIN : Z := unpack 14.
Definition INFLEXION_SUPPORTED : Z := unpack 15.
Definition PAUSED : Z := unpack 16.
Definition PAUSE_SUPPORTED : Z := unpack 17.
Definition BUSY : Z := unpack 18.
Definition BUSY_SUPPORTED : Z := unpack 19.
Definition WAIT : Z := unpack 20.
Definition WAIT_SUPPORTED : Z := unpack 21.

Definition ENABLE_NATIVE_SPEECH : Z := 0xFFFF.
Definition VOICE : Z := 0x10000.
Definition LANGUAGE : Z := 0x20000.
Definition SUBENGINE : Z := 0x30000.
Definition ENGINE : Z := 0x40000.
Definition ENGINE_AVAILABLE : Z := 0x50000.
Definition AUTO_ENGINE : Z := 0xFFFE.
Definition USER_PARAM : Z := 0x1000000.

(** The names bound by the tuple assignment, in the order they are written,
    and the selector bases. *)
Definition plain_identifiers : list Z :=
  [VOLUME; VOLUME_MAX; VOLUME_MIN; VOLUME_SUPPORTED;
   RATE; RATE_MAX; RATE_MIN; RATE_SUPPORTED;
   PITCH; PITCH_MAX; PITCH_MIN; PITCH_SUPPORTED;
   INFLEXION; INFLEXION_MAX; INFLEXION_MIN; INFLEXION_SUPPORTED;
   PAUSED; PAUSE_SUPPORTED; BUSY; BUSY_SUPPORTED; WAIT; WAIT_SUPPORTED].

Definition selector_bases : list Z :=
  [VOICE; LANGUAGE; SUBENGINE; ENGINE; ENGINE_AVAILABLE; USER_PARAM].

(** A value handed to [speechSetValue]: the setters pass an [int],
    [enable_native_speech] passes its [bool] as it is. *)
Inductive pyval : Type :=
| PyInt (z : Z)
| PyBool (b : bool).

(** The foreign functions of the handle, as Python sees them: arguments in,
    reply out, the library's own state threaded through. Nothing is assumed
    about what the library does with a call. *)
Record Native (S : Type) : Type := {
  speechSay : string -> bool -> S -> reply Z * S;
  speechSayA : string -> bool -> S -> reply Z * S;
  brailleDisplay : string -> S -> reply Z * S;
  speechStop : S -> reply Z * S;
  speechGetValue : Z -> S -> reply Z * S;
  speechSetValue : Z -> pyval -> S -> reply Z * S;
  speechGetString : Z -> S -> reply (option string) * S
}.
Arguments speechSay {S} _ _ _ _.
Arguments speechSayA {S} _ _ _ _.
Arguments brailleDisplay {S} _ _ _.
Arguments speechStop {S} _ _.
Arguments speechGetValue {S} _ _ _.
Arguments speechSetValue {S} _ _ _ _.
Arguments speechGetString {S} _ _ _.

(** One entry of the log: the foreign function called, its arguments and
    its reply. *)
Inductive Call : Type :=
| CallSay (msg : string) (interrupt : bool) (r : reply Z)
| CallSayA (msg : string) (interrupt : bool) (r : reply Z)
| CallBraille (msg : string) (r : reply Z)
| CallStop (r : reply Z)
| CallGetValue (what : Z) (r : reply Z)
| CallSetValue (what : Z) (value : pyval) (r : reply Z)
| CallGetString (what : Z) (r : reply (option string)).

(** The dictionary [get_engines] builds for one engine. *)
Record Engine : Type := {
  name : string;
  available : bool;
  Id : Z
}.

(** The attributes an instance has: those of the class body, in the order
    they are defined, and the one [__init__] sets (name-mangled). *)
Inductive Attr : Type :=
| a_init | a_say | a_say_a | a_braille | a_speech | a_speech_a | a_stop
| a_get_value | a_set_value | a_get_string | a_enable_native_speech
| a_engine_used | a_get_engines
| a_rate_supported | a_volume_supported | a_pitch_supported
| a_inflexion_supported
| a_set_rate | a_set_volume | a_set_pitch | a_set_inflexion
| a_uspeech.

Definition attributes : list (string * Attr) :=
  [("__init__", a_init); ("say", a_say); ("say_a", a_say_a);
   ("braille", a_braille); ("speech", a_speech); ("speech_a", a_speech_a);
   ("stop", a_stop); ("get_value", a_get_value); ("set_value", a_set_value);
   ("get_string", a_get_string);
   ("enable_native_speech", a_enable_native_speech);
   ("engine_used", a_engine_used); ("get_engines", a_get_engines);
   ("rate_supported", a_rate_supported);
   ("volume_supported", a_volume_supported);
   ("pitch_supported", a_pitch_supported);
   ("inflexion_supported", a_inflexion_supported);
   ("set_rate", a_set_rate); ("set_volume", a_set_volume);
   ("set_pitch", a_set_pitch); ("set_inflexion", a_set_inflexion);
   ("_UniversalSpeech__uspeech", a_uspeech)].

Fixpoint assoc (key : string) (l : list (string * Attr)) : option Attr :=
  match l with
  | [] => None
  | (k, a) :: rest => if String.eqb key k then Some a else assoc key rest
  end.

Section Facade.

Context {S : Type} (lib : Native S).

(** State of a run: the library's state and the log, oldest call first. *)
Definition St : Type := S * list Call.

Definition M (A : Type) : Type := St -> outcome A * St.

Definition ret {A} (a : A) : M A := fun st => (Ret a, st).

Definition raise {A} (e : exn) : M A := fun st => (Exc e, st).

Definition out_of_fuel {A} : M A := fun st => (OutOfFuel, st).

Definition bind {A B} (m : M A) (k : A -> M B) : M B :=
  fun st =>
    match m st with
    | (Ret a, st') => k a st'
    | (Exc e, st') => (Exc e, st')
    | (OutOfFuel, st') => (OutOfFuel, st')
    end.

(** A foreign call: run it on the library's state, log it, and hand its
    value to the caller or raise its exception there. *)
Definition foreign {A} (f : S -> reply A * S) (entry : reply A -> Call)
  : M A :=
  fun st =>
    let '(r, s') := f (fst st) in (outcome_of r, (s', snd st ++ [entry r])).

#[export] Instance M_ret : MRet M := @ret.
#[export] Instance M_bind : MBind M := fun A B k m => bind m k.

Definition say (msg : string) (interrupt : bool) : M Z :=
  foreign (speechSay lib msg interrupt) (CallSay msg interrupt).

Definition say_a (msg : string) (interrupt : bool) : M Z :=
  foreign (speechSayA lib msg interrupt) (CallSayA msg interrupt).

Definition braille (msg : string) : M Z :=
  foreign (brailleDisplay lib msg) (CallBraille msg).

Definition speech (msg : string) : M unit :=
  say msg true;;
  braille msg;;
  mret tt.

(** [self.<attr>]: the attribute if the instance has it, [AttributeError]
    otherwise (the class defines no [__getattr__]). *)
Definition getattr (attr : string) : M Attr :=
  match assoc attr attributes with
  | Some a => mret a
  | None => raise (AttributeError "UniversalSpeech" attr)
  end.

(** [speech_a] looks [sayA] up on the instance and calls what it finds
    with [msg]. Attributes are bound late, so the call of a found
    attribute is the parameter [call]. *)
Definition speech_a (call : Attr -> string -> M unit) (msg : string)
  : M unit :=
  sayA ← getattr "sayA";
  call sayA msg;;
  braille msg;;
  mret tt.

Definition stop : M Z :=
  foreign (speechStop lib) CallStop.

Definition get_value (what : Z) : M Z :=
  foreign (speechGetValue lib what) (CallGetValue what).

Definition set_value (what : Z) (value : pyval) : M Z :=
  foreign (speechSetValue lib what value) (CallSetValue what value).

(** Setting [restype] is no foreign call; it makes the result a [str]
    (or [None]). *)
Definition get_string (what : Z) : M (option string) :=
  foreign (speechGetString lib what) (CallGetString what).

Definition enable_native_speech (enabled : bool) : M unit :=
  set_value ENABLE_NATIVE_SPEECH (PyBool enabled);;
  mret tt.

Definition engine_used : M (option string) :=
  engine_id ← get_value ENGINE;
  get_string (ENGINE + engine_id).

(** The [while True] loop of [get_engines], with the values of [engines]
    and [i] at the head of an iteration. [not name] holds of [None] and
    of the empty string. *)
Fixpoint get_engines_loop (fuel : nat) (engines : list Engine) (i : Z)
  : M (list Engine) :=
  match fuel with
  | O => out_of_fuel
  | Datatypes.S fuel' =>
      name ← get_string (ENGINE + i);
      match name with
      | None | Some EmptyString => mret engines
      | Some name =>
          v ← get_value (ENGINE_AVAILABLE + i);
          let avail := negb (v =? 0) in
          get_engines_loop fuel'
            (engines ++ [{| name := name; available := avail; Id := i |}])
            (i + 1)
      end
  end.

Definition get_engines (fuel : nat) : M (list Engine) :=
  get_engines_loop fuel [] 0.

Definition rate_supported : M bool :=
  v ← get_value RATE_SUPPORTED; mret (negb (v =? 0)).

Definition volume_supported : M bool :=
  v ← get_value VOLUME_SUPPORTED; mret (negb (v =? 0)).

Definition pitch_supported : M bool :=
  v ← get_value PITCH_SUPPORTED; mret (negb (v =? 0)).

Definition inflexion_supported : M bool :=
  v ← get_value INFLEXION_SUPPORTED; mret (negb (v =? 0)).

(** [if x is not None: self.set_value(what, x)] *)
Definition set_if_given (what : Z) (x : option Z) : M unit :=
  match x with
  | Some x => set_value what (PyInt x);; mret tt
  | None => mret tt
  end.

Definition set_rate (value : Z) (min_rate max_rate : option Z) : M unit :=
  supported ← rate_supported;
  if negb supported then
    raise (UnsupportedError
             "Set rate is not supported with the current engine.")
  else
    set_value RATE (PyInt value);;
    set_if_given RATE_MIN min_rate;;
    set_if_given RATE_MAX max_rate.

Definition set_volume (value : Z) (min_volume max_volume : option Z)
  : M unit :=
  supported ← volume_supported;
  if negb supported then
    raise (UnsupportedError
             "Set volume is not supported with the current engine.")
  else
    set_value VOLUME (PyInt value);;
    set_if_given VOLUME_MIN min_volume;;
    set_if_given VOLUME_MAX max_volume.

Definition set_pitch (value : Z) (min_pitch max_pitch : option Z)
  : M unit :=
  supported ← pitch_supported;
  if negb supported then
    raise (UnsupportedError
             "Set pitch is not supported with the current engine.")
  else
    set_value PITCH (PyInt value);;
    set_if_given PITCH_MIN min_pitch;;
    set_if_given PITCH_MAX max_pitch.

Definition set_inflexion (value : Z)
  (min_inflexion max_inflexion : option Z) : M unit :=
  supported ← inflexion_supported;
  if negb supported then
    raise (UnsupportedError
             "Set inflexion is not supported with the current engine.")
  else
    set_value INFLEXION (PyInt value);;
    set_if_given INFLEXION_MIN min_inflexion;;
    set_if_given INFLEXION_MAX max_inflexion.

End Facade.

End UniversalSpeech.

(** ** Vocabulary of the statements *)

Module Spec.
Import Loader UniversalSpeech.

(** The folder the loader looks into. *)
Definition lib_path (e : Env) : Path :=
  path_join (current_dir e) (lib_folder e).


(** The folder is absent, or it is there and lacks a required file. *)
Definition some_missing (e : Env) : Prop :=
  fs e !! lib_path e = None
  ∨ ∃ entries, fs e !! lib_path e = Some (Dir entries)
               ∧ ∃ f, f ∈ dll_files ∧ f ∉ entries.


(** The writes of a log: the [speechSetValue] calls, in order. *)
Definition writes (log : list Call) : list (Z * pyval) :=
  omap (fun c => match c with
                 | CallSetValue what value _ => Some (what, value)
                 | _ => None
                 end) log.

(** The write an optional argument stands for. *)
Definition write_if_given (what : Z) (x : option Z) : list (Z * pyval) :=
  match x with
  | Some x => [(what, PyInt x)]
  | None => []
  end.

(** [not name], as Python evaluates it on a [str] or [None]. *)
Definition falsy (name : option string) : Prop :=
  name = None ∨ name = Some "".

(** A name read that ends the enumeration. *)
Definition empty_name (r : reply (option string)) : Prop :=
  ∃ last, r = Returned last ∧ falsy last.

(** An enumeration that read the pairs [reads] (name, availability value)
    from offset [i] on: the descriptors it builds ... *)
Fixpoint descriptors_from (i : Z) (reads : list (string * Z)) : list Engine :=
  match reads with
  | [] => []
  | (nm, v) :: rest =>
      {| name := nm; available := negb (v =? 0); Id := i |}
        :: descriptors_from (i + 1) rest
  end.

(** ... and the foreign calls it makes, [last] being the name that ended
    it. *)
Fixpoint enumeration_from (i : Z) (reads : list (string * Z))
  (last : option string) : list Call :=
  match reads with
  | [] => [CallGetString (ENGINE + i) (Returned last)]
  | (nm, v) :: rest =>
      CallGetString (ENGINE + i) (Returned (Some nm))
        :: CallGetValue (ENGINE_AVAILABLE + i) (Returned v)
        :: enumeration_from (i + 1) rest last
  end.

Section Library.
Context {S : Type} (lib : Native S).

(** A foreign function that returns from every state. *)
Definition returns {A} (f : S → reply A * S) : Prop :=
  ∀ s, ∃ a, fst (f s) = Returned a.

(** The writes of the library return, and so do its reads of values and of
    strings. *)
Definition writes_return : Prop :=
  ∀ what value, returns (speechSetValue lib what value).

Definition values_return : Prop :=
  ∀ what, returns (speechGetValue lib what).

Definition strings_return : Prop :=
  ∀ what, returns (speechGetString lib what).

(** A setter gated by a flag: it first reads [flag]; when the read returns
    0 it raises [UnsupportedError], the flag read being its only foreign
    call; when the read returns any other value its next foreign call
    writes [v] to [param]. *)
Definition gated (setter : Z → option Z → option Z → M unit)
  (flag param : Z) : Prop :=
  ∀ (v : Z) (mn mx : option Z) (s : S) (log : list Call),
    let s1 := snd (speechGetValue lib flag s) in
    (fst (speechGetValue lib flag s) = Returned 0 →
       ∃ msg, setter v mn mx (s, log)
              = (Exc (UnsupportedError msg),
                 (s1, log ++ [CallGetValue flag (Returned 0)])))
    ∧ (∀ f, fst (speechGetValue lib flag s) = Returned f → f ≠ 0 →
       ∃ o s' rest,
         setter v mn mx (s, log)
         = (o,
            (s', log ++ CallGetValue flag (Returned f)
                     :: CallSetValue param (PyInt v)
                          (fst (speechSetValue lib param (PyInt v) s1))
                     :: rest))).

(** The common shape of [set_rate], [set_volume], [set_pitch] and
    [set_inflexion]; each of them is an instance of it. *)
Definition setter (flag param pmin pmax : Z) (text : string)
  (value : Z) (mn mx : option Z) : M unit :=
  supported ← (v ← get_value lib flag; mret (negb (v =? 0)));
  if negb supported then raise (UnsupportedError text)
  else
    set_value lib param (PyInt value);;
    set_if_given lib pmin mn;;
    set_if_given lib pmax mx.

End Library.

End Spec.

(** ** Fixtures *)

Module Fixture.
Import Loader UniversalSpeech.

(** A 64-bit installation with every file in place. *)
Definition complete : Env :=
  {| current_dir := ["site-packages"; "UniversalSpeech"];
     architecture := "64bit";
     fs := {[ ["site-packages"; "UniversalSpeech"; "lib64"] :=
                Dir ("README.txt" :: dll_files) ]} |}.

(** The same with [SAAPI32.dll] removed. *)
Definition incomplete : Env :=
  {| current_dir := ["site-packages"; "UniversalSpeech"];
     architecture := "64bit";
     fs := {[ ["site-packages"; "UniversalSpeech"; "lib64"] :=
                Dir ["dolapi.dll"; "jfwapi.dll"; "nvdaControllerClient.dll";
                     "UniversalSpeech.dll"; "UniversalSpeech.tlb"] ]} |}.

(** A linker that opens whatever it is asked to, and one that finds no
    loadable module in the file. *)
Definition opens : Linker := fun _ => None.

Definition not_a_module : Linker :=
  fun _ => Some (OSError "[WinError 193] %1 is not a valid Win32 application").

(** A 32-bit installation without its folder. *)
Definition no_folder : Env :=
  {| current_dir := ["site-packages"; "UniversalSpeech"];
     architecture := "32bit";
     fs := ∅ |}.

(** How ctypes passes a value as a C [int]: the low 32 bits, read as a
    signed number. *)
Definition c_int (v : pyval) : Z :=
  match v with
  | PyInt z => (z + 2 ^ 31) mod 2 ^ 32 - 2 ^ 31
  | PyBool b => Z.b2z b
  end.

(** A library with two engines, "A" and "B", that keeps its integer
    parameters in a store (0 when never set) and reports success (1) on
    every other call. *)
Definition two_engines : Native (gmap Z Z) :=
  {| speechSay := fun _ _ s => (Returned 1, s);
     speechSayA := fun _ _ s => (Returned 1, s);
     brailleDisplay := fun _ s => (Returned 1, s);
     speechStop := fun s => (Returned 1, s);
     speechGetValue := fun what s => (Returned (default 0 (s !! what)), s);
     speechSetValue := fun what v s => (Returned 1, <[what := c_int v]> s);
     speechGetString := fun what s =>
       (Returned (if what =? ENGINE then Some "A"
                  else if what =? ENGINE + 1 then Some "B"
                  else Some ""), s) |}.

(** Rate is adjustable, volume is not; engine "A" is available, "B" is
    not. *)
Definition store : gmap Z Z :=
  {[ RATE_SUPPORTED := 1; ENGINE_AVAILABLE := 1 ]}.

(** A library without a working engine: speaking fails (status 0), the
    braille display works, nothing is adjustable. *)
Definition mute : Native unit :=
  {| speechSay := fun _ _ s => (Returned 0, s);
     speechSayA := fun _ _ s => (Returned 0, s);
     brailleDisplay := fun _ s => (Returned 1, s);
     speechStop := fun s => (Returned 0, s);
     speechGetValue := fun _ s => (Returned 0, s);
     speechSetValue := fun _ _ s => (Returned 0, s);
     speechGetString := fun _ s => (Returned None, s) |}.

(** A library whose speak function faults, so that the call raises; the
    braille display works. *)
Definition access_violation : exn :=
  OSError "exception: access violation reading 0x0000000000000000".

Definition faulty : Native unit :=
  {| speechSay := fun _ _ s => (Raised access_violation, s);
     speechSayA := fun _ _ s => (Raised access_violation, s);
     brailleDisplay := fun _ s => (Returned 1, s);
     speechStop := fun s => (Returned 1, s);
     speechGetValue := fun _ s => (Returned 0, s);
     speechSetValue := fun _ _ s => (Returned 1, s);
     speechGetString := fun _ s => (Returned None, s) |}.

End Fixture.

(** ** example.py *)

Module Example.
Import Loader UniversalSpeech.

(** What [print] is handed: the formatted string, the list of engine
    dictionaries, or the exception object caught. *)
Inductive Printed : Type :=
| PStr (text : string)
| PList (engines : list Engine)
| PExn (e : exn).

(** What the script runs in: the modules of the process, the library
    behind the handle with the log of its calls, and standard output. *)
Record World (S : Type) : Type := {
  opened : Process;
  native : S;
  calls : list Call;
  stdout : list Printed
}.
Arguments opened {S} _.
Arguments native {S} _.
Arguments calls {S} _.
Arguments stdout {S} _.

(** [str(x)] as [format] applies it to the result of [engine_used]. *)
Definition py_str (x : option string) : string :=
  match x with
  | Some text => text
  | None => "None"
  end.

Section Script.
Context {S : Type} (lib : Native S).

Definition Script (A : Type) : Type := World S -> outcome A * World S.

Definition sret {A} (a : A) : Script A := fun w => (Ret a, w).

Definition sbind {A B} (m : Script A) (k : A -> Script B) : Script B :=
  fun w =>
    match m w with
    | (Ret a, w') => k a w'
    | (Exc e, w') => (Exc e, w')
    | (OutOfFuel, w') => (OutOfFuel, w')
    end.

#[export] Instance Script_ret : MRet Script := @sret.
#[export] Instance Script_bind : MBind Script := fun A B k m => sbind m k.

(** [UniversalSpeech.UniversalSpeech()]: [__init__] loads the library and
    keeps the handle. *)
Definition __init__ (dlopen : Linker) (e : Env) : Script CDLL :=
  fun w =>
    let '(o, opened') := load dlopen e (opened w) in
    (o, {| opened := opened'; native := native w;
           calls := calls w; stdout := stdout w |}).

(** A method call on the instance. *)
Definition method {A} (m : M A) : Script A :=
  fun w =>
    let '(o, (s', log')) := m (native w, calls w) in
    (o, {| opened := opened w; native := s';
           calls := log'; stdout := stdout w |}).

Definition print (x : Printed) : Script unit :=
  fun w =>
    (Ret tt, {| opened := opened w; native := native w;
                calls := calls w; stdout := stdout w ++ [x] |}).

(** [try: body except UnsupportedError as e: handler] *)
Definition try_except_UnsupportedError (body : Script unit)
  (handler : exn -> Script unit) : Script unit :=
  fun w =>
    match body w with
    | (Exc (UnsupportedError msg), w') => handler (UnsupportedError msg) w'
    | r => r
    end.

Definition example (dlopen : Linker) (e : Env) (fuel : nat) : Script unit :=
  __init__ dlopen e;;
  method (enable_native_speech lib true);;
  method (say lib "Hello, world." true);;
  method (braille lib "Hello, world.");;
  engine_used ← method (engine_used lib);
  print (PStr ("You are using " +:+ py_str engine_used +:+ "."));;
  available_engines ← method (get_engines lib fuel);
  print (PList available_engines);;
  try_except_UnsupportedError
    (method (set_rate lib 150 None None))
    (fun e => print (PExn e)).

End Script.

End Example.

(** ** More vocabulary *)

Module Tables.
Import Loader UniversalSpeech Spec.

(** Every identifier the module defines, in the order of the source. *)
Definition identifiers : list Z :=
  plain_identifiers
    ++ [ENABLE_NATIVE_SPEECH; VOICE; LANGUAGE; SUBENGINE; ENGINE;
        ENGINE_AVAILABLE; AUTO_ENGINE; USER_PARAM].

(** The four attributes that have a setter, each with the identifiers of
    its value, maximum, minimum and support flag. *)
Definition attribute_groups : list (Z * Z * Z * Z) :=
  [(VOLUME, VOLUME_MAX, VOLUME_MIN, VOLUME_SUPPORTED);
   (RATE, RATE_MAX, RATE_MIN, RATE_SUPPORTED);
   (PITCH, PITCH_MAX, PITCH_MIN, PITCH_SUPPORTED);
   (INFLEXION, INFLEXION_MAX, INFLEXION_MIN, INFLEXION_SUPPORTED)].

(** A call the enumeration may make: a name read at ENGINE + i or a value
    read at ENGINE_AVAILABLE + i, for an offset [i >= 0]. *)
Definition enumeration_read (c : Call) : Prop :=
  match c with
  | CallGetString what _ => ∃ i, 0 ≤ i ∧ what = ENGINE + i
  | CallGetValue what _ => ∃ i, 0 ≤ i ∧ what = ENGINE_AVAILABLE + i
  | _ => False
  end.

(** The reply of a logged call raised [e]. *)
Definition raised (e : exn) (c : Call) : Prop :=
  match c with
  | CallSay _ _ r | CallSayA _ _ r | CallBraille _ r | CallStop r
  | CallGetValue _ r | CallSetValue _ _ r => r = Raised e
  | CallGetString _ r => r = Raised e
  end.

(** The reply of a logged call is a returned value. *)
Definition answered (c : Call) : Prop := ∀ e, ¬ raised e c.

Section Setters.
Context {S : Type} (lib : Native S).

(** The four setters, each with the identifiers it uses: flag, value,
    minimum, maximum. *)
Definition setters
  : list ((Z → option Z → option Z → M unit) * (Z * Z * Z * Z)) :=
  [(set_rate lib, (RATE_SUPPORTED, RATE, RATE_MIN, RATE_MAX));
   (set_volume lib, (VOLUME_SUPPORTED, VOLUME, VOLUME_MIN, VOLUME_MAX));
   (set_pitch lib, (PITCH_SUPPORTED, PITCH, PITCH_MIN, PITCH_MAX));
   (set_inflexion lib,
     (INFLEXION_SUPPORTED, INFLEXION, INFLEXION_MIN, INFLEXION_MAX))].



End Setters.

End Tables.

(** ** More fixtures *)

Module Faults.
Import Loader UniversalSpeech Fixture.

(** A 64-bit installation where a regular file sits where the folder
    should be. *)
Definition file_for_folder : Env :=
  {| current_dir := ["site-packages"; "UniversalSpeech"];
     architecture := "64bit";
     fs := {[ ["site-packages"; "UniversalSpeech"; "lib64"] := File ]} |}.

(** A complete 32-bit folder on a 64-bit process. *)
Definition wrong_folder : Env :=
  {| current_dir := ["site-packages"; "UniversalSpeech"];
     architecture := "64bit";
     fs := {[ ["site-packages"; "UniversalSpeech"; "lib"] :=
                Dir dll_files ]} |}.

(** A library that has a name for every engine offset it is asked about. *)
Definition endless : Native unit :=
  {| speechSay := fun _ _ s => (Returned 1, s);
     speechSayA := fun _ _ s => (Returned 1, s);
     brailleDisplay := fun _ s => (Returned 1, s);
     speechStop := fun s => (Returned 1, s);
     speechGetValue := fun _ s => (Returned 1, s);
     speechSetValue := fun _ _ s => (Returned 1, s);
     speechGetString := fun _ s => (Returned (Some "engine"), s) |}.

(** A library all of whose calls fault. *)
Definition dead : Native unit :=
  {| speechSay := fun _ _ s => (Raised access_violation, s);
     speechSayA := fun _ _ s => (Raised access_violation, s);
     brailleDisplay := fun _ s => (Raised access_violation, s);
     speechStop := fun s => (Raised access_violation, s);
     speechGetValue := fun _ s => (Raised access_violation, s);
     speechSetValue := fun _ _ s => (Raised access_violation, s);
     speechGetString := fun _ s => (Raised access_violation, s) |}.

(** A library where everything is adjustable, except that writing a
    minimum faults; it lists one engine whose availability read faults. *)
Definition picky : Native unit :=
  {| speechSay := fun _ _ s => (Returned 1, s);
     speechSayA := fun _ _ s => (Returned 1, s);
     brailleDisplay := fun _ s => (Returned 1, s);
     speechStop := fun s => (Returned 1, s);
     speechGetValue := fun what s =>
       (if what =? ENGINE_AVAILABLE then Raised access_violation
        else Returned 1, s);
     speechSetValue := fun what _ s =>
       (if existsb (Z.eqb what)
             [VOLUME_MIN; RATE_MIN; PITCH_MIN; INFLEXION_MIN]
        then Raised access_violation else Returned 1, s);
     speechGetString := fun what s =>
       (Returned (if what =? ENGINE then Some "A" else None), s) |}.

(** The two engines "A" and "B" again, on a library whose value reads
    fault. *)
Definition no_availability : Native unit :=
  {| speechSay := fun _ _ s => (Returned 1, s);
     speechSayA := fun _ _ s => (Returned 1, s);
     brailleDisplay := fun _ s => (Returned 1, s);
     speechStop := fun s => (Returned 1, s);
     speechGetValue := fun _ s => (Raised access_violation, s);
     speechSetValue := fun _ _ s => (Returned 1, s);
     speechGetString := fun what s =>
       (Returned (if what =? ENGINE then Some "A"
                  else if what =? ENGINE + 1 then Some "B"
                  else Some ""), s) |}.


(** The world the script starts in. *)
Definition fresh {S : Type} (s : S) : Example.World S :=
  {| Example.opened := []; Example.native := s;
     Example.calls := []; Example.stdout := [] |}.

End Faults.

(** ** The loader *)

Section LoaderFacts.
Import Loader Spec.

Lemma py_in_elem_of (x : string) (l : list string) :
  py_in x l = true ↔ x ∈ l.
Proof.
  unfold py_in. rewrite existsb_exists, list_elem_of_In. split.
  - intros (y & Hy & Heq). apply String.eqb_eq in Heq. by subst.
  - intros Hx. exists x. split; [done | apply String.eqb_refl].
Qed.


Lemma files_loop_false (files l : list string) :
  files_loop files l = false ↔ ∃ f, f ∈ files ∧ f ∉ l.
Proof.
  induction files as [| file rest IH]; simpl.
  - split; [done | intros (f & Hf & _); inversion Hf].
  - destruct (py_in file l) eqn:Hin; simpl.
    + rewrite IH. apply py_in_elem_of in Hin. split.
      * intros (f & Hf & Hn). exists f. split; [by right | done].
      * intros (f & Hf & Hn). exists f.
        apply elem_of_cons in Hf as [-> | Hf]; [done | by split].
    + split; [| done]. intros _. exists file. split; [left |].
      intros Hyes. apply py_in_elem_of in Hyes. congruence.
Qed.


Lemma load_some_missing (dlopen : Linker) (e : Env) (opened : Process) :
  some_missing e →
  load dlopen e opened
  = (Exc (DLLFileNotFoundError "Missing dll files."), opened).
Proof.
  unfold load, _files_check, os_path_exists, os_listdir.
  fold (lib_path e).
  intros [Hnone | (entries & Hdir & Hmiss)].
  - by rewrite Hnone.
  - rewrite Hdir. cbn -[files_loop dll_files].
    apply files_loop_false in Hmiss. by rewrite Hmiss.
Qed.





End LoaderFacts.

(** ** The facade *)

Import UniversalSpeech Spec Tables.

Section FacadeFacts.
Context {S : Type} (lib : Native S).

Implicit Types (s : S) (log : list Call) (msg : string).

Lemma foreign_run {A} (f : S → reply A * S) (entry : reply A → Call) s log :
  foreign f entry (s, log)
  = (outcome_of (fst (f s)), (snd (f s), log ++ [entry (fst (f s))])).
Proof. unfold foreign. cbn [fst snd]. by destruct (f s). Qed.

Lemma bind_foreign {A B} (f : S → reply A * S) (entry : reply A → Call)
  (k : A → M B) s log :
  bind (foreign f entry) k (s, log)
  = match fst (f s) with
    | Returned a => k a (snd (f s), log ++ [entry (Returned a)])
    | Raised e => (Exc e, (snd (f s), log ++ [entry (Raised e)]))
    end.
Proof. unfold bind. rewrite foreign_run. by destruct (fst (f s)). Qed.

(** C5, as amended. For every text, [speech] first calls [speechSay] with
    the text. If that call returns, whatever status it returns,
    [brailleDisplay] is called next with the same text, and nothing else is
    called. If that call raises, the exception leaves [speech] and
    [brailleDisplay] is not called. *)
Theorem speech_say_then_braille_if_say_returns msg s log :
  let s1 := snd (speechSay lib msg true s) in
  match fst (speechSay lib msg true s) with
  | Returned r1 =>
      let r2 := fst (brailleDisplay lib msg s1) in
      speech lib msg (s, log)
      = (match r2 with Returned _ => Ret tt | Raised e => Exc e end,
         (snd (brailleDisplay lib msg s1),
          log ++ [CallSay msg true (Returned r1); CallBraille msg r2]))
  | Raised e =>
      speech lib msg (s, log)
      = (Exc e, (s1, log ++ [CallSay msg true (Raised e)]))
  end.
Proof.
  intros s1. unfold speech, say, braille, mbind, M_bind.
  rewrite bind_foreign. fold s1.
  destruct (fst (speechSay lib msg true s)) as [r1 | e]; [| done].
  rewrite bind_foreign.
  destruct (fst (brailleDisplay lib msg s1)); by rewrite <- app_assoc.
Qed.

(** C4. [enable_native_speech b] leaves the library and the log exactly as
    [set_value ENABLE_NATIVE_SPEECH b] does: one [speechSetValue] call with
    identifier 0xFFFF and value [b], nothing else. (It returns [None] where
    [set_value] returns the native status.) *)
Theorem enable_native_speech_is_set_value (b : bool) s log :
  let r := fst (speechSetValue lib 0xFFFF (PyBool b) s) in
  let s1 := snd (speechSetValue lib 0xFFFF (PyBool b) s) in
  snd (enable_native_speech lib b (s, log))
  = snd (set_value lib ENABLE_NATIVE_SPEECH (PyBool b) (s, log))
  ∧ ENABLE_NATIVE_SPEECH = 0xFFFF
  ∧ set_value lib ENABLE_NATIVE_SPEECH (PyBool b) (s, log)
    = (outcome_of r, (s1, log ++ [CallSetValue 0xFFFF (PyBool b) r]))
  ∧ enable_native_speech lib b (s, log)
    = (match r with Returned _ => Ret tt | Raised e => Exc e end,
       (s1, log ++ [CallSetValue 0xFFFF (PyBool b) r])).
Proof.
  intros r s1. unfold enable_native_speech, set_value, mbind, M_bind.
  rewrite bind_foreign, foreign_run.
  change ENABLE_NATIVE_SPEECH with 0xFFFF. fold r s1.
  by destruct r.
Qed.

(** C8. [engine_used] reads the value [e] of ENGINE with [speechGetValue],
    then reads the string at ENGINE + e with [speechGetString], and returns
    that string. These are its only two foreign calls. *)
Theorem engine_used_resolves_current_engine (e : Z) s log :
  fst (speechGetValue lib ENGINE s) = Returned e →
  let s1 := snd (speechGetValue lib ENGINE s) in
  let r := fst (speechGetString lib (ENGINE + e) s1) in
  engine_used lib (s, log)
  = (outcome_of r,
     (snd (speechGetString lib (ENGINE + e) s1),
      log ++ [CallGetValue ENGINE (Returned e);
              CallGetString (ENGINE + e) r])).
Proof.
  intros He s1 r. unfold engine_used, get_value, get_string.
  unfold mbind, M_bind. rewrite bind_foreign, He, foreign_run.
  by rewrite <- app_assoc.
Qed.

(** C10. For every message, [speech_a] raises [AttributeError]: the
    instance has no attribute [sayA] (the method defined is [say_a]). The
    library and the log are left as they were, so no foreign call is made
    and the [braille] call that follows is not reached. *)
Theorem speech_a_raises_AttributeError
  (call : Attr → string → M unit) msg s log :
  assoc "sayA" attributes = None
  ∧ assoc "say_a" attributes = Some a_say_a
  ∧ speech_a lib call msg (s, log)
    = (Exc (AttributeError "UniversalSpeech" "sayA"), (s, log)).
Proof. by repeat split. Qed.

(** *** The gated setters *)

Lemma set_rate_setter :
  set_rate lib
  = setter lib RATE_SUPPORTED RATE RATE_MIN RATE_MAX
      "Set rate is not supported with the current engine.".
Proof. reflexivity. Qed.

Lemma set_volume_setter :
  set_volume lib
  = setter lib VOLUME_SUPPORTED VOLUME VOLUME_MIN VOLUME_MAX
      "Set volume is not supported with the current engine.".
Proof. reflexivity. Qed.

Lemma set_pitch_setter :
  set_pitch lib
  = setter lib PITCH_SUPPORTED PITCH PITCH_MIN PITCH_MAX
      "Set pitch is not supported with the current engine.".
Proof. reflexivity. Qed.

Lemma set_inflexion_setter :
  set_inflexion lib
  = setter lib INFLEXION_SUPPORTED INFLEXION INFLEXION_MIN INFLEXION_MAX
      "Set inflexion is not supported with the current engine.".
Proof. reflexivity. Qed.

Lemma writes_app (l1 l2 : list Call) :
  writes (l1 ++ l2) = writes l1 ++ writes l2.
Proof. apply omap_app. Qed.

(** An optional write only adds to the log ... *)
Lemma set_if_given_any (what : Z) (x : option Z) s log :
  ∃ o s' new, set_if_given lib what x (s, log) = (o, (s', log ++ new)).
Proof.
  destruct x as [x |]; simpl.
  - unfold set_value, mbind, M_bind. rewrite bind_foreign.
    destruct (fst (speechSetValue lib what (PyInt x) s)); by eexists _, _, [_].
  - exists (Ret tt), s, []. by rewrite app_nil_r.
Qed.

(** ... and when the write returns, it adds just that write. *)
Lemma set_if_given_run (what : Z) (x : option Z) s log :
  (∀ value, returns (speechSetValue lib what value)) →
  ∃ s' new,
    set_if_given lib what x (s, log) = (Ret tt, (s', log ++ new))
    ∧ writes new = write_if_given what x
    ∧ length new = length (writes new).
Proof.
  intros Hret. destruct x as [x |]; simpl.
  - unfold set_value, mbind, M_bind. rewrite bind_foreign.
    destruct (Hret (PyInt x) s) as [r ->]. by eexists _, [_].
  - exists s, []. by rewrite app_nil_r.
Qed.

Section Setter.
Variables (flag param pmin pmax : Z) (text : string).
Variables (v : Z) (mn mx : option Z).

Lemma setter_unsupported s log :
  fst (speechGetValue lib flag s) = Returned 0 →
  setter lib flag param pmin pmax text v mn mx (s, log)
  = (Exc (UnsupportedError text),
     (snd (speechGetValue lib flag s),
      log ++ [CallGetValue flag (Returned 0)])).
Proof.
  intros Hflag. unfold setter, get_value, mbind, M_bind.
  unfold bind at 1. unfold bind at 1. rewrite foreign_run, Hflag.
  reflexivity.
Qed.

Lemma setter_next_write (f : Z) s log :
  fst (speechGetValue lib flag s) = Returned f → f ≠ 0 →
  ∃ o s' rest,
    setter lib flag param pmin pmax text v mn mx (s, log)
    = (o,
       (s', log ++ CallGetValue flag (Returned f)
                :: CallSetValue param (PyInt v)
                     (fst (speechSetValue lib param (PyInt v)
                             (snd (speechGetValue lib flag s))))
                :: rest)).
Proof.
  intros Hflag Hf. unfold setter, get_value, set_value, mbind, M_bind.
  unfold bind at 1. unfold bind at 1. rewrite foreign_run, Hflag.
  unfold mret, M_ret, ret. cbn [outcome_of].
  apply Z.eqb_neq in Hf. rewrite Hf. cbn [negb].
  rewrite bind_foreign.
  destruct (fst (speechSetValue lib param (PyInt v)
                   (snd (speechGetValue lib flag s)))) as [r | e].
  - unfold bind.
    match goal with
    | |- context [set_if_given lib pmin mn (?s1, ?l1)] =>
        destruct (set_if_given_any pmin mn s1 l1) as (o2 & s2 & n2 & ->)
    end.
    destruct o2 as [[] | e2 |].
    + match goal with
      | |- context [set_if_given lib pmax mx (?s1, ?l1)] =>
          destruct (set_if_given_any pmax mx s1 l1) as (o3 & s3 & n3 & ->)
      end.
      exists o3, s3, (n2 ++ n3). by rewrite <- !app_assoc.
    + exists (Exc e2), s2, n2. by rewrite <- !app_assoc.
    + exists OutOfFuel, s2, n2. by rewrite <- !app_assoc.
  - eexists (Exc e), _, []. by rewrite <- !app_assoc.
Qed.

Lemma setter_supported (f : Z) s log :
  (∀ what value, returns (speechSetValue lib what value)) →
  fst (speechGetValue lib flag s) = Returned f → f ≠ 0 →
  ∃ s' new,
    setter lib flag param pmin pmax text v mn mx (s, log)
    = (Ret tt, (s', log ++ CallGetValue flag (Returned f) :: new))
    ∧ writes new
      = (param, PyInt v)
          :: write_if_given pmin mn ++ write_if_given pmax mx
    ∧ length new = length (writes new).
Proof.
  intros Hret Hflag Hf. unfold setter, get_value, set_value, mbind, M_bind.
  unfold bind at 1. unfold bind at 1. rewrite foreign_run, Hflag.
  unfold mret, M_ret, ret. cbn [outcome_of].
  apply Z.eqb_neq in Hf. rewrite Hf. cbn [negb].
  rewrite bind_foreign.
  destruct (Hret param (PyInt v) (snd (speechGetValue lib flag s)))
    as [r ->].
  unfold bind.
  match goal with
  | |- context [set_if_given lib pmin mn (?s1, ?l1)] =>
      destruct (set_if_given_run pmin mn s1 l1 (Hret pmin))
        as (s2 & n2 & -> & Hw2 & Hl2)
  end.
  match goal with
  | |- context [set_if_given lib pmax mx (?s1, ?l1)] =>
      destruct (set_if_given_run pmax mx s1 l1 (Hret pmax))
        as (s3 & n3 & -> & Hw3 & Hl3)
  end.
  exists s3, (CallSetValue param (PyInt v) (Returned r) :: n2 ++ n3).
  split; [| split].
  - by rewrite <- !app_assoc.
  - cbn. by rewrite writes_app, Hw2, Hw3.
  - cbn. rewrite writes_app, !length_app. lia.
Qed.

End Setter.

Lemma setter_gated (flag param pmin pmax : Z) (text : string) :
  gated lib (setter lib flag param pmin pmax text) flag param.
Proof.
  intros v mn mx s log s1. split.
  - intros Hflag. exists text. by apply setter_unsupported.
  - intros f Hflag Hf. by apply setter_next_write.
Qed.

(** C2. Each of [set_rate], [set_volume], [set_pitch] and [set_inflexion]
    first reads its *_SUPPORTED flag with [get_value]. If the flag reads 0,
    the setter raises [UnsupportedError] and the flag read is the only
    foreign call made: no [speechSetValue] is attempted. If the flag reads
    anything else, the next foreign call is [speechSetValue] of the
    setter's parameter with the value given. *)
Theorem setters_gated_by_supported_flag :
  gated lib (set_rate lib) RATE_SUPPORTED RATE
  ∧ gated lib (set_volume lib) VOLUME_SUPPORTED VOLUME
  ∧ gated lib (set_pitch lib) PITCH_SUPPORTED PITCH
  ∧ gated lib (set_inflexion lib) INFLEXION_SUPPORTED INFLEXION.
Proof.
  rewrite set_rate_setter, set_volume_setter, set_pitch_setter,
    set_inflexion_setter.
  repeat split; apply setter_gated.
Qed.

Lemma set_if_given_cases (what : Z) (x : option Z) s log :
  set_if_given lib what x (s, log)
  = match x with
    | None => (Ret tt, (s, log))
    | Some x =>
        (match fst (speechSetValue lib what (PyInt x) s) with
         | Returned _ => Ret tt
         | Raised e => Exc e
         end,
         (snd (speechSetValue lib what (PyInt x) s),
          log ++ [CallSetValue what (PyInt x)
                    (fst (speechSetValue lib what (PyInt x) s))]))
    end.
Proof.
  destruct x as [x |]; [| done].
  unfold set_if_given, set_value, mbind, M_bind. rewrite bind_foreign.
  by destruct (fst (speechSetValue lib what (PyInt x) s)).
Qed.

Lemma answered_Returned (what : Z) (value : pyval) (r : Z) :
  Tables.answered (CallSetValue what value (Returned r)).
Proof. intros e He. discriminate He. Qed.

(** What a setter does once its flag has read non-zero: it attempts the
    writes of its value, minimum and maximum in this order, stopping at the
    first one that raises. *)
Lemma setter_writes (flag param pmin pmax : Z) (text : string)
  (v : Z) (mn mx : option Z) (f : Z) s log :
  fst (speechGetValue lib flag s) = Returned f → f ≠ 0 →
  ∃ o s' new,
    setter lib flag param pmin pmax text v mn mx (s, log)
    = (o, (s', log ++ CallGetValue flag (Returned f) :: new))
    ∧ length new = length (writes new)
    ∧ writes new
      `prefix_of` (param, PyInt v)
                    :: write_if_given pmin mn ++ write_if_given pmax mx
    ∧ ((o = Ret tt
        ∧ writes new
          = (param, PyInt v)
              :: write_if_given pmin mn ++ write_if_given pmax mx
        ∧ Forall Tables.answered new)
       ∨ (∃ e before c,
            o = Exc e ∧ new = before ++ [c]
            ∧ Forall Tables.answered before ∧ Tables.raised e c)).
Proof.
  intros Hflag Hf. unfold setter, get_value, set_value, mbind, M_bind.
  unfold bind at 1. unfold bind at 1. rewrite foreign_run, Hflag.
  unfold mret, M_ret, ret. cbn [outcome_of].
  apply Z.eqb_neq in Hf. rewrite Hf. cbn [negb].
  rewrite bind_foreign.
  destruct (fst (speechSetValue lib param (PyInt v) _)) as [r1 | e1].
  - unfold bind. rewrite set_if_given_cases.
    destruct mn as [m |];
      [destruct (fst (speechSetValue lib pmin (PyInt m) _)) as [r2 | e2] |];
      try (rewrite set_if_given_cases;
           destruct mx as [x |];
           [destruct (fst (speechSetValue lib pmax (PyInt x) _))
              as [r3 | e3] |]);
      rewrite <- ?app_assoc; cbn [app];
      eexists _, _, _; (split; [reflexivity |]);
      (split; [reflexivity |]);
      (split; [cbn; repeat apply prefix_cons; apply prefix_nil |]);
      first
        [ left; split; [reflexivity |]; split; [reflexivity |];
          repeat (constructor; [apply answered_Returned |]); constructor
        | right; eexists _, [_; _], _;
          split; [reflexivity |]; split; [reflexivity |];
          split; [| reflexivity];
          repeat (constructor; [apply answered_Returned |]); constructor
        | right; eexists _, [_], _;
          split; [reflexivity |]; split; [reflexivity |];
          split; [| reflexivity];
          repeat (constructor; [apply answered_Returned |]); constructor ].
  - rewrite <- ?app_assoc; cbn [app].
    eexists _, _, _. split; [reflexivity |]. split; [reflexivity |].
    split; [cbn; repeat apply prefix_cons; apply prefix_nil |].
    right. eexists _, [], _. split; [reflexivity |].
    split; [reflexivity |]. split; [constructor | reflexivity].
Qed.

(** C3, as amended. When the RATE_SUPPORTED flag reads non-zero,
    [set_rate v min_rate max_rate] attempts its writes in this order: RATE
    with [v]; RATE_MIN with [min_rate] if it is given; RATE_MAX with
    [max_rate] if it is given. The only other foreign call is the flag read
    that comes first. If every write returns, exactly these writes are made
    and [set_rate] returns. A write that raises ends the call with its
    exception: the writes before it stay made and those after it are not
    attempted. *)
Theorem set_rate_write_order (v : Z) (min_rate max_rate : option Z)
  (f : Z) s log :
  fst (speechGetValue lib RATE_SUPPORTED s) = Returned f → f ≠ 0 →
  ∃ o s' new,
    set_rate lib v min_rate max_rate (s, log)
    = (o, (s', log ++ CallGetValue RATE_SUPPORTED (Returned f) :: new))
    ∧ length new = length (writes new)
    ∧ writes new
      `prefix_of` (RATE, PyInt v)
                    :: write_if_given RATE_MIN min_rate
                    ++ write_if_given RATE_MAX max_rate
    ∧ ((o = Ret tt
        ∧ writes new
          = (RATE, PyInt v)
              :: write_if_given RATE_MIN min_rate
              ++ write_if_given RATE_MAX max_rate
        ∧ Forall Tables.answered new)
       ∨ (∃ e before c,
            o = Exc e ∧ new = before ++ [c]
            ∧ Forall Tables.answered before ∧ Tables.raised e c))
    ∧ (writes_return lib →
       o = Ret tt
       ∧ writes new
         = (RATE, PyInt v)
             :: write_if_given RATE_MIN min_rate
             ++ write_if_given RATE_MAX max_rate).
Proof.
  intros Hflag Hf. rewrite set_rate_setter.
  destruct (setter_writes RATE_SUPPORTED RATE RATE_MIN RATE_MAX
              "Set rate is not supported with the current engine."
              v min_rate max_rate f s log Hflag Hf)
    as (o & s' & new & Hrun & Hlen & Hprefix & Hcases).
  exists o, s', new. rewrite Hrun.
  split; [done |]. split; [done |]. split; [done |]. split; [done |].
  intros Hwrites.
  destruct (setter_supported RATE_SUPPORTED RATE RATE_MIN RATE_MAX
              "Set rate is not supported with the current engine."
              v min_rate max_rate f s log Hwrites Hflag Hf)
    as (s'' & new' & Hrun' & Hw' & _).
  rewrite Hrun in Hrun'. injection Hrun' as -> _ Hnew.
  apply app_inv_head in Hnew. injection Hnew as ->. done.
Qed.

(** *** Enumeration of the engines *)

(** One iteration of the loop. *)
Lemma get_engines_loop_step (fuel : nat) (engines : list Engine) (i : Z)
  s log :
  let s1 := snd (speechGetString lib (ENGINE + i) s) in
  let s2 := snd (speechGetValue lib (ENGINE_AVAILABLE + i) s1) in
  get_engines_loop lib (Datatypes.S fuel) engines i (s, log)
  = match fst (speechGetString lib (ENGINE + i) s) with
    | Returned (Some (String a nm')) =>
        match fst (speechGetValue lib (ENGINE_AVAILABLE + i) s1) with
        | Returned v =>
            get_engines_loop lib fuel
              (engines ++ [{| name := String a nm';
                              available := negb (v =? 0);
                              Id := i |}])
              (i + 1)
              (s2,
               log ++ [CallGetString (ENGINE + i)
                         (Returned (Some (String a nm')));
                       CallGetValue (ENGINE_AVAILABLE + i) (Returned v)])
        | Raised e =>
            (Exc e,
             (s2,
              log ++ [CallGetString (ENGINE + i)
                        (Returned (Some (String a nm')));
                      CallGetValue (ENGINE_AVAILABLE + i) (Raised e)]))
        end
    | Returned last =>
        (Ret engines, (s1, log ++ [CallGetString (ENGINE + i) (Returned last)]))
    | Raised e =>
        (Exc e, (s1, log ++ [CallGetString (ENGINE + i) (Raised e)]))
    end.
Proof.
  intros s1 s2. cbn [get_engines_loop].
  unfold get_string, get_value, mbind, M_bind.
  rewrite bind_foreign. fold s1.
  destruct (fst (speechGetString lib (ENGINE + i) s)) as [[[| a nm'] |] | e];
    try reflexivity.
  rewrite bind_foreign. fold s2.
  destruct (fst (speechGetValue lib (ENGINE_AVAILABLE + i) s1));
    by rewrite <- app_assoc.
Qed.

Lemma falsy_dec (o : option string) :
  falsy o ∨ ∃ a nm', o = Some (String a nm').
Proof.
  destruct o as [[| a nm'] |]; [left; by right | right; eauto | left; by left].
Qed.

(** Whenever the loop returns, it read a run of non-empty names, one
    availability value after each, then a name that is empty. *)
Lemma get_engines_loop_Ret (fuel : nat) :
  ∀ (engines : list Engine) (i : Z) s log (r : list Engine) (st' : St),
    get_engines_loop lib fuel engines i (s, log) = (Ret r, st') →
    ∃ reads last,
      Forall (λ p, p.1 ≠ "") reads ∧ falsy last
      ∧ r = engines ++ descriptors_from i reads
      ∧ snd st' = log ++ enumeration_from i reads last.
Proof.
  induction fuel as [| fuel IH]; intros engines i s log r st' Hrun.
  - discriminate.
  - rewrite get_engines_loop_step in Hrun. cbv zeta in Hrun.
    destruct (fst (speechGetString lib (ENGINE + i) s))
      as [[[| a nm'] |] | e] eqn:Hname; [| | | discriminate].
    + inversion Hrun; subst. exists [], (Some ""). simpl.
      rewrite app_nil_r. repeat split; [constructor | by right].
    + destruct (fst (speechGetValue lib (ENGINE_AVAILABLE + i) _))
        as [v | e]; [| discriminate].
      apply IH in Hrun as (reads & last & Hne & Hlast & -> & ->).
      exists ((String a nm', v) :: reads), last.
      split; [by constructor |]. split; [done |].
      simpl. by rewrite <- !app_assoc.
    + inversion Hrun; subst. exists [], None. simpl.
      rewrite app_nil_r. repeat split; [constructor | by left].
Qed.

(** A result does not depend on the fuel left over. *)
Lemma get_engines_loop_more_fuel (fuel : nat) :
  ∀ (fuel' : nat) (engines : list Engine) (i : Z) (st : St)
    (r : list Engine) (st' : St),
    get_engines_loop lib fuel engines i st = (Ret r, st') →
    (fuel ≤ fuel')%nat →
    get_engines_loop lib fuel' engines i st = (Ret r, st').
Proof.
  induction fuel as [| fuel IH]; intros fuel' engines i [s log] r st' Hrun Hle.
  - discriminate.
  - destruct fuel' as [| fuel']; [lia |].
    rewrite get_engines_loop_step in *. cbv zeta in *.
    destruct (fst (speechGetString lib (ENGINE + i) s))
      as [[[| a nm'] |] | e]; try done.
    destruct (fst (speechGetValue lib (ENGINE_AVAILABLE + i) _));
      [| done].
    apply IH; [done | lia].
Qed.

Section Terminates.
Variable n : nat.
Hypothesis names_return : strings_return lib.
Hypothesis availability_returns : values_return lib.
Hypothesis empty_at_n :
  ∀ s, empty_name (fst (speechGetString lib (ENGINE + Z.of_nat n) s)).

(** From offset [j <= n] on and with more than [n - j] units of fuel, the
    loop returns, at an offset no further than [n]. *)
Lemma get_engines_loop_terminates (fuel : nat) :
  ∀ (j : nat) (engines : list Engine) s log,
    (j ≤ n)%nat → (n - j < fuel)%nat →
    ∃ reads last s' sk,
      (j + length reads ≤ n)%nat
      ∧ Forall (λ p, p.1 ≠ "") reads ∧ falsy last
      ∧ fst (speechGetString lib
               (ENGINE + Z.of_nat (j + length reads)) sk)
        = Returned last
      ∧ get_engines_loop lib fuel engines (Z.of_nat j) (s, log)
        = (Ret (engines ++ descriptors_from (Z.of_nat j) reads),
           (s', log ++ enumeration_from (Z.of_nat j) reads last)).
Proof.
  induction fuel as [| fuel IH]; intros j engines s log Hj Hfuel;
    [lia |].
  rewrite get_engines_loop_step. cbv zeta.
  destruct (names_return (ENGINE + Z.of_nat j) s) as [nm Hnm].
  rewrite Hnm.
  destruct (falsy_dec nm) as [Hfalsy | (a & nm' & ->)].
  - exists [], nm. eexists _, s.
    cbn [length descriptors_from enumeration_from].
    rewrite Nat.add_0_r, app_nil_r.
    split; [lia |]. split; [constructor |]. split; [done |].
    split; [done |].
    by destruct Hfalsy as [-> | ->].
  - assert (j ≠ n) as Hne.
    { intros ->. destruct (empty_at_n s) as (last & Hlast & [-> | ->]);
        congruence. }
    destruct (availability_returns
                (ENGINE_AVAILABLE + Z.of_nat j)
                (snd (speechGetString lib (ENGINE + Z.of_nat j) s)))
      as [v Hv].
    rewrite Hv.
    replace (Z.of_nat j + 1) with (Z.of_nat (Datatypes.S j)) by lia.
    edestruct (IH (Datatypes.S j)) as
      (reads & last & s' & sk & Hlen & Hnames & Hlast & Hsk & ->);
      [lia | lia |].
    exists ((String a nm', v) :: reads), last, s', sk.
    cbn [length descriptors_from enumeration_from].
    replace (Z.of_nat j + 1) with (Z.of_nat (Datatypes.S j)) by lia.
    split; [lia |]. split; [by constructor |]. split; [done |].
    split; [by rewrite Nat.add_succ_r |].
    by rewrite <- !app_assoc.
Qed.

End Terminates.

Lemma descriptors_from_Id (reads : list (string * Z)) :
  ∀ i : Z,
    map Id (descriptors_from i reads)
    = map (λ k, i + Z.of_nat k) (seq 0 (length reads)).
Proof.
  induction reads as [| [nm v] rest IH]; intros i; simpl; [done |].
  f_equal. { lia. }
  rewrite IH, <- seq_shift, map_map. apply map_ext. intros k. lia.
Qed.

(** The [k]-th descriptor and the two calls it comes from. *)
Lemma enumeration_lookup (reads : list (string * Z)) (last : option string) :
  ∀ (i : Z) (k : nat) (e : Engine),
    descriptors_from i reads !! k = Some e →
    Id e = i + Z.of_nat k
    ∧ ∃ v,
        enumeration_from i reads last !! (2 * k)%nat
        = Some (CallGetString (ENGINE + (i + Z.of_nat k))
                  (Returned (Some (name e))))
        ∧ enumeration_from i reads last !! (2 * k + 1)%nat
          = Some (CallGetValue (ENGINE_AVAILABLE + (i + Z.of_nat k))
                    (Returned v))
        ∧ available e = negb (v =? 0).
Proof.
  induction reads as [| [nm v] rest IH]; intros i k e Hk; [done |].
  destruct k as [| k].
  - inversion Hk; subst; clear Hk. cbn.
    rewrite Z.add_0_r. split; [done |]. by exists v.
  - cbn [descriptors_from lookup list_lookup] in Hk.
    apply IH in Hk as (HId & v' & Hs & Hv & Ha).
    replace (i + Z.of_nat (Datatypes.S k)) with (i + 1 + Z.of_nat k) by lia.
    split; [done |]. exists v'.
    replace (2 * Datatypes.S k)%nat
      with (Datatypes.S (Datatypes.S (2 * k))) by lia.
    cbn [enumeration_from Nat.add lookup list_lookup].
    done.
Qed.

Lemma get_engines_loop_Exc (fuel : nat) :
  ∀ (engines : list Engine) (i : Z) s log (e : exn) (st' : St),
    0 ≤ i →
    get_engines_loop lib fuel engines i (s, log) = (Exc e, st') →
    ∃ before c,
      snd st' = log ++ before ++ [c] ∧ raised e c ∧ enumeration_read c.
Proof.
  induction fuel as [| fuel IH]; intros engines i s log e st' Hi Hrun.
  - discriminate.
  - rewrite get_engines_loop_step in Hrun. cbv zeta in Hrun.
    destruct (fst (speechGetString lib (ENGINE + i) s))
      as [[[| a nm'] |] | e'].
    + discriminate.
    + destruct (fst (speechGetValue lib (ENGINE_AVAILABLE + i) _))
        as [v | e'].
      * apply IH in Hrun as (before & c & -> & Hc & Hread); [| lia].
        eexists (_ :: _ :: before), c.
        split; [by rewrite <- !app_assoc |]. done.
      * inversion Hrun; subst. eexists [_], _.
        split; [reflexivity |]. split; [done |]. by exists i.
    + discriminate.
    + inversion Hrun; subst. eexists [], _.
      split; [reflexivity |]. split; [done |]. by exists i.
Qed.

(** A run that ends does not depend on the fuel left over. *)
Lemma get_engines_loop_fuel (fuel : nat) :
  ∀ (fuel' : nat) (engines : list Engine) (i : Z) (st : St),
    fst (get_engines_loop lib fuel engines i st) ≠ OutOfFuel →
    (fuel ≤ fuel')%nat →
    get_engines_loop lib fuel' engines i st
    = get_engines_loop lib fuel engines i st.
Proof.
  induction fuel as [| fuel IH]; intros fuel' engines i [s log] Hends Hle.
  - by destruct Hends.
  - destruct fuel' as [| fuel']; [lia |].
    rewrite !get_engines_loop_step in *. cbv zeta in *.
    destruct (fst (speechGetString lib (ENGINE + i) s))
      as [[[| a nm'] |] | e]; try done.
    destruct (fst (speechGetValue lib (ENGINE_AVAILABLE + i) _));
      [| done].
    apply IH; [done | lia].
Qed.

Section Ends.
Variable n : nat.
Hypothesis empty_at_n :
  ∀ s, empty_name (fst (speechGetString lib (ENGINE + Z.of_nat n) s)).

(** From offset [j <= n] on and with more than [n - j] units of fuel, the
    loop ends: it returns at an offset no further than [n], or a read
    raises. *)
Lemma get_engines_loop_ends (fuel : nat) :
  ∀ (j : nat) (engines : list Engine) s log,
    (j ≤ n)%nat → (n - j < fuel)%nat →
    (∃ reads last s' sk,
       (j + length reads ≤ n)%nat
       ∧ Forall (λ p, p.1 ≠ "") reads ∧ falsy last
       ∧ fst (speechGetString lib
                (ENGINE + Z.of_nat (j + length reads)) sk)
         = Returned last
       ∧ get_engines_loop lib fuel engines (Z.of_nat j) (s, log)
         = (Ret (engines ++ descriptors_from (Z.of_nat j) reads),
            (s', log ++ enumeration_from (Z.of_nat j) reads last)))
    ∨ (∃ e st',
         get_engines_loop lib fuel engines (Z.of_nat j) (s, log)
         = (Exc e, st')).
Proof.
  induction fuel as [| fuel IH]; intros j engines s log Hj Hfuel;
    [lia |].
  rewrite get_engines_loop_step. cbv zeta.
  destruct (fst (speechGetString lib (ENGINE + Z.of_nat j) s))
    as [nm | e] eqn:Hnm; [| right; by eexists _, _].
  destruct (falsy_dec nm) as [Hfalsy | (a & nm' & ->)].
  - left. exists [], nm. eexists _, s.
    cbn [length descriptors_from enumeration_from].
    rewrite Nat.add_0_r, app_nil_r.
    split; [lia |]. split; [constructor |]. split; [done |].
    split; [done |].
    by destruct Hfalsy as [-> | ->].
  - assert (j ≠ n) as Hne.
    { intros ->. destruct (empty_at_n s) as (last & Hlast & [-> | ->]);
        congruence. }
    destruct (fst (speechGetValue lib (ENGINE_AVAILABLE + Z.of_nat j) _))
      as [v | e]; [| right; by eexists _, _].
    replace (Z.of_nat j + 1) with (Z.of_nat (Datatypes.S j)) by lia.
    edestruct (IH (Datatypes.S j)) as
      [(reads & last & s' & sk & Hlen & Hnames & Hlast & Hsk & ->)
      | (e & st' & ->)];
      [lia | lia | | right; by eexists _, _].
    left. exists ((String a nm', v) :: reads), last, s', sk.
    cbn [length descriptors_from enumeration_from].
    replace (Z.of_nat j + 1) with (Z.of_nat (Datatypes.S j)) by lia.
    split; [lia |]. split; [by constructor |]. split; [done |].
    split; [by rewrite Nat.add_succ_r |].
    by rewrite <- !app_assoc.
Qed.

End Ends.

(** C7, as amended. [get_engines] reads the name at ENGINE + 0,
    ENGINE + 1, ... in ascending order, the availability value after each
    non-empty name, and stops at the first name read that is empty. If
    some offset [n] always yields an empty name, then with more than [n]
    units of fuel the loop ends, in one of two ways. Either it returns: it
    stopped at an offset [k <= n], where it read the empty name, and
    returns the descriptors of the offsets 0 .. k-1, in order ([k = n] if
    no offset below [n] ever yields an empty name). Or one of its reads
    raised, and [get_engines] raises that exception and returns no
    descriptor. It returns whenever its reads return. More fuel changes
    nothing. *)
Theorem get_engines_terminates (n fuel : nat) s log :
  (∀ s, empty_name (fst (speechGetString lib (ENGINE + Z.of_nat n) s))) →
  (n < fuel)%nat →
  ((∃ reads last s',
      (length reads ≤ n)%nat
      ∧ Forall (λ p, p.1 ≠ "") reads ∧ falsy last
      ∧ get_engines lib fuel (s, log)
        = (Ret (descriptors_from 0 reads),
           (s', log ++ enumeration_from 0 reads last))
      ∧ map Id (descriptors_from 0 reads)
        = py_range 0 (Z.of_nat (length reads))
      ∧ ((∀ (i : nat) s, (i < n)%nat →
            ¬ empty_name (fst (speechGetString lib (ENGINE + Z.of_nat i) s))) →
         length reads = n))
   ∨ (∃ e st' before c,
        get_engines lib fuel (s, log) = (Exc e, st')
        ∧ snd st' = log ++ before ++ [c]
        ∧ raised e c ∧ enumeration_read c))
  ∧ (strings_return lib → values_return lib →
     ∃ engines st', get_engines lib fuel (s, log) = (Ret engines, st'))
  ∧ ∀ fuel' : nat, (fuel ≤ fuel')%nat →
      get_engines lib fuel' (s, log) = get_engines lib fuel (s, log).
Proof.
  intros Hempty Hfuel.
  assert (fst (get_engines lib fuel (s, log)) ≠ OutOfFuel) as Hends.
  { unfold get_engines.
    destruct (get_engines_loop_ends n Hempty fuel 0 [] s log)
      as [(reads & last & s' & sk & _ & _ & _ & _ & Hrun)
         | (e & st' & Hrun)]; [lia | lia | |];
      change (Z.of_nat 0) with 0 in Hrun; by rewrite Hrun. }
  split; [| split].
  - destruct (get_engines_loop_ends n Hempty fuel 0 [] s log)
      as [(reads & last & s' & sk & Hlen & Hne & Hlast & Hsk & Hrun)
         | (e & st' & Hrun)]; [lia | lia | |].
    + left. exists reads, last, s'. cbn [Nat.add app] in *.
      split; [done |]. split; [done |]. split; [done |].
      split; [exact Hrun |]. split.
      * rewrite descriptors_from_Id. unfold py_range.
        rewrite Z.sub_0_r, Nat2Z.id. done.
      * intros Hbelow.
        destruct (decide (length reads = n)) as [| Hshort]; [done |].
        exfalso. apply (Hbelow (length reads) sk); [lia |].
        by exists last.
    + right. exists e, st'.
      destruct (get_engines_loop_Exc fuel [] 0 s log e st')
        as (before & c & Hlog & Hc & Hread); [lia | exact Hrun |].
      exists before, c. split; [exact Hrun | done].
  - intros Hnames Hvalues.
    destruct (get_engines_loop_terminates n Hnames Hvalues Hempty
                fuel 0 [] s log)
      as (reads & last & s' & sk & _ & _ & _ & _ & Hrun); [lia | lia |].
    eexists _, _. exact Hrun.
  - intros fuel' Hle. unfold get_engines in *.
    by apply get_engines_loop_fuel.
Qed.

(** C6, as amended. On a library whose name at ENGINE + 0 is "A", at
    ENGINE + 1 is "B" and at ENGINE + 2 is the empty string, [get_engines]
    (with fuel for three iterations) reads the availability of engine 0
    after its name, then that of engine 1 after its name. When both reads
    return, it returns exactly two descriptors: name "A", id 0 and name
    "B", id 1, in this order, each available iff the value the library
    returned at ENGINE_AVAILABLE plus its id is not 0. When one of the two
    reads raises, [get_engines] raises that exception and returns no
    descriptor. *)
Theorem get_engines_two_engines (fuel : nat) s log :
  (∀ s, fst (speechGetString lib (ENGINE + 0) s) = Returned (Some "A")) →
  (∀ s, fst (speechGetString lib (ENGINE + 1) s) = Returned (Some "B")) →
  (∀ s, fst (speechGetString lib (ENGINE + 2) s) = Returned (Some "")) →
  (3 ≤ fuel)%nat →
  let s1 := snd (speechGetString lib (ENGINE + 0) s) in
  let a0 := speechGetValue lib (ENGINE_AVAILABLE + 0) s1 in
  let s3 := snd (speechGetString lib (ENGINE + 1) (snd a0)) in
  let a1 := speechGetValue lib (ENGINE_AVAILABLE + 1) s3 in
  let s5 := snd (speechGetString lib (ENGINE + 2) (snd a1)) in
  get_engines lib fuel (s, log)
  = match fst a0 with
    | Returned v0 =>
        match fst a1 with
        | Returned v1 =>
            (Ret [{| name := "A"; available := negb (v0 =? 0); Id := 0 |};
                  {| name := "B"; available := negb (v1 =? 0); Id := 1 |}],
             (s5,
              log ++ [CallGetString (ENGINE + 0) (Returned (Some "A"));
                      CallGetValue (ENGINE_AVAILABLE + 0) (Returned v0);
                      CallGetString (ENGINE + 1) (Returned (Some "B"));
                      CallGetValue (ENGINE_AVAILABLE + 1) (Returned v1);
                      CallGetString (ENGINE + 2) (Returned (Some ""))]))
        | Raised e =>
            (Exc e,
             (snd a1,
              log ++ [CallGetString (ENGINE + 0) (Returned (Some "A"));
                      CallGetValue (ENGINE_AVAILABLE + 0) (Returned v0);
                      CallGetString (ENGINE + 1) (Returned (Some "B"));
                      CallGetValue (ENGINE_AVAILABLE + 1) (Raised e)]))
        end
    | Raised e =>
        (Exc e,
         (snd a0,
          log ++ [CallGetString (ENGINE + 0) (Returned (Some "A"));
                  CallGetValue (ENGINE_AVAILABLE + 0) (Raised e)]))
    end.
Proof.
  intros HA HB Hend Hfuel s1 a0 s3 a1 s5.
  destruct fuel as [| [| [| fuel]]]; [lia | lia | lia |].
  unfold get_engines.
  rewrite get_engines_loop_step, HA. cbv zeta. fold s1 a0.
  destruct (fst a0) as [v0 | e]; [| done].
  change (0 + 1) with 1.
  rewrite get_engines_loop_step, HB. cbv zeta. fold s3 a1.
  destruct (fst a1) as [v1 | e]; [| by rewrite <- !app_assoc].
  change (1 + 1) with 2.
  rewrite get_engines_loop_step, Hend. cbv zeta. fold s5.
  by rewrite <- !app_assoc.
Qed.

(** C9, as amended. The plain identifiers are exactly 0 .. 21, from
    VOLUME = 0 to WAIT_SUPPORTED = 21; the other identifiers are constants
    above that range (ENGINE = 0x40000, ENGINE_AVAILABLE = 0x50000).
    Whenever [get_engines] returns, the descriptor at position [i] has id
    [i], its name is what [speechGetString] returned at ENGINE + i and its
    availability is decided by what [speechGetValue] returned at
    ENGINE_AVAILABLE + i: the two calls made for an engine use the same
    offset [i], each on its own base. *)
Theorem engine_identifiers_consistent (fuel : nat) s log
  (engines : list Engine) (st' : St) :
  get_engines lib fuel (s, log) = (Ret engines, st') →
  plain_identifiers = py_range 0 22
  ∧ VOLUME = 0 ∧ WAIT_SUPPORTED = 21
  ∧ Forall (λ base, 21 < base)
      (ENABLE_NATIVE_SPEECH :: AUTO_ENGINE :: selector_bases)
  ∧ ENGINE = 0x40000 ∧ ENGINE_AVAILABLE = 0x50000
  ∧ ∃ new,
      snd st' = log ++ new
      ∧ ∀ (i : nat) (e : Engine),
          engines !! i = Some e →
          Id e = Z.of_nat i
          ∧ ∃ v,
              new !! (2 * i)%nat
              = Some (CallGetString (ENGINE + Z.of_nat i)
                        (Returned (Some (name e))))
              ∧ new !! (2 * i + 1)%nat
                = Some (CallGetValue (ENGINE_AVAILABLE + Z.of_nat i)
                          (Returned v))
              ∧ available e = negb (v =? 0).
Proof.
  intros Hrun.
  split; [reflexivity |]. split; [reflexivity |]. split; [reflexivity |].
  split; [by repeat constructor |].
  split; [reflexivity |]. split; [reflexivity |].
  apply get_engines_loop_Ret in Hrun
    as (reads & last & _ & _ & -> & ->).
  eexists. split; [reflexivity |].
  intros i e He. cbn [app] in He.
  destruct (enumeration_lookup reads last 0 i e He) as (HId & v & Hs & Hv & Ha).
  rewrite Z.add_0_l in *.
  split; [done |]. by exists v.
Qed.

End FacadeFacts.

(** ** The statements at the fixtures *)

Section Fixtures.
Import Loader Fixture Faults.

Example load_complete :
  load opens complete []
  = (Ret {| dll_path := ["site-packages"; "UniversalSpeech"; "lib64";
                         "UniversalSpeech.dll"] |},
     [["site-packages"; "UniversalSpeech"; "lib64"; "UniversalSpeech.dll"]]).
Proof. vm_compute. reflexivity. Qed.

Example load_incomplete :
  load opens incomplete []
  = (Exc (DLLFileNotFoundError "Missing dll files."), []).
Proof. vm_compute. reflexivity. Qed.

Example load_no_folder :
  load opens no_folder []
  = (Exc (DLLFileNotFoundError "Missing dll files."), []).
Proof. vm_compute. reflexivity. Qed.

Example speech_mute :
  speech mute "hello" (tt, [])
  = (Ret tt,
     (tt, [CallSay "hello" true (Returned 0);
           CallBraille "hello" (Returned 1)])).
Proof. reflexivity. Qed.

Example get_engines_mute :
  get_engines mute 1 (tt, [])
  = (Ret [], (tt, [CallGetString ENGINE (Returned None)])).
Proof. reflexivity. Qed.

Example set_volume_unsupported :
  set_volume two_engines 80 None None (store, [])
  = (Exc (UnsupportedError
            "Set volume is not supported with the current engine."),
     (store, [CallGetValue VOLUME_SUPPORTED (Returned 0)])).
Proof. vm_compute. reflexivity. Qed.

Example set_rate_only_value :
  snd (snd (set_rate two_engines 150 None None (store, [])))
  = [CallGetValue RATE_SUPPORTED (Returned 1);
     CallSetValue RATE (PyInt 150) (Returned 1)].
Proof. vm_compute. reflexivity. Qed.

Example get_engines_out_of_fuel :
  fst (get_engines two_engines 2 (store, [])) = OutOfFuel.
Proof. vm_compute. reflexivity. Qed.


(** C3, as stated, fails: with the flag non-zero and both bounds given, a
    minimum write that raises ends [set_rate]; the write of RATE_MAX is
    never made. *)
Lemma set_rate_skips_max_when_min_raises :
  fst (speechGetValue picky RATE_SUPPORTED tt) = Returned 1
  ∧ set_rate picky 150 (Some 50) (Some 300) (tt, [])
    = (Exc access_violation,
       (tt, [CallGetValue RATE_SUPPORTED (Returned 1);
             CallSetValue RATE (PyInt 150) (Returned 1);
             CallSetValue RATE_MIN (PyInt 50) (Raised access_violation)]))
  ∧ writes (snd (snd (set_rate picky 150 (Some 50) (Some 300) (tt, []))))
    ≠ (RATE, PyInt 150)
        :: write_if_given RATE_MIN (Some 50)
        ++ write_if_given RATE_MAX (Some 300).
Proof.
  split; [reflexivity |]. split; [reflexivity |].
  intros Heq. vm_compute in Heq. discriminate Heq.
Qed.

(** C6, as stated, fails: with the names "A", "B" and the empty string in
    place, an availability read that raises makes [get_engines] raise; no
    descriptor is returned. *)
Lemma get_engines_raises_when_availability_raises :
  (∀ s, fst (speechGetString no_availability (ENGINE + 0) s)
        = Returned (Some "A"))
  ∧ (∀ s, fst (speechGetString no_availability (ENGINE + 1) s)
          = Returned (Some "B"))
  ∧ (∀ s, fst (speechGetString no_availability (ENGINE + 2) s)
          = Returned (Some ""))
  ∧ get_engines no_availability 3 (tt, [])
    = (Exc access_violation,
       (tt, [CallGetString ENGINE (Returned (Some "A"));
             CallGetValue ENGINE_AVAILABLE (Raised access_violation)])).
Proof. repeat split. Qed.

(** C7, as stated, fails: offset 1 always yields an empty name, yet
    [get_engines] returns no descriptors, whatever the fuel: the
    availability read of engine 0 raises and [get_engines] raises with
    it. *)
Lemma get_engines_ends_without_descriptors :
  (∀ s, empty_name (fst (speechGetString picky (ENGINE + Z.of_nat 1) s)))
  ∧ ∀ fuel : nat,
      (1 < fuel)%nat →
      get_engines picky fuel (tt, [])
      = (Exc access_violation,
         (tt, [CallGetString ENGINE (Returned (Some "A"));
               CallGetValue ENGINE_AVAILABLE (Raised access_violation)])).
Proof.
  split.
  - intros s. exists None. split; [reflexivity | by left].
  - intros fuel Hfuel. destruct fuel as [| fuel]; [lia | reflexivity].
Qed.

(** C5, as stated, fails: when the speak call raises, [speech] raises with
    it and the braille display is never called. *)
Lemma speech_skips_braille_when_say_raises :
  speech faulty "hello" (tt, [])
  = (Exc access_violation,
     (tt, [CallSay "hello" true (Raised access_violation)]))
  ∧ ∀ r, CallBraille "hello" r ∉ snd (snd (speech faulty "hello" (tt, []))).
Proof.
  split; [reflexivity |].
  intros r Hin. cbn in Hin.
  apply list_elem_of_singleton in Hin. discriminate Hin.
Qed.

(** C9, as stated, fails: the availability of engine [i] is not read at
    ENGINE + i; no [speechGetValue] call of the enumeration uses an
    identifier ENGINE + i of an engine it lists. *)
Lemma availability_not_read_at_ENGINE_offset :
  fst (get_engines two_engines 3 (store, []))
  = Ret [{| name := "A"; available := true; Id := 0 |};
         {| name := "B"; available := false; Id := 1 |}]
  ∧ snd (snd (get_engines two_engines 3 (store, [])))
    = [CallGetString 0x40000 (Returned (Some "A"));
       CallGetValue 0x50000 (Returned 1);
       CallGetString 0x40001 (Returned (Some "B"));
       CallGetValue 0x50001 (Returned 0);
       CallGetString 0x40002 (Returned (Some ""))]
  ∧ ∀ (i : Z) r, i = 0 ∨ i = 1 →
      CallGetValue (ENGINE + i) r
      ∉ snd (snd (get_engines two_engines 3 (store, []))).
Proof.
  assert (snd (snd (get_engines two_engines 3 (store, [])))
          = [CallGetString 0x40000 (Returned (Some "A"));
             CallGetValue 0x50000 (Returned 1);
             CallGetString 0x40001 (Returned (Some "B"));
             CallGetValue 0x50001 (Returned 0);
             CallGetString 0x40002 (Returned (Some ""))]) as Hlog
    by (vm_compute; reflexivity).
  split; [vm_compute; reflexivity |]. split; [exact Hlog |].
  intros i r Hi Hin. rewrite Hlog in Hin.
  repeat (apply elem_of_cons in Hin as [Hin | Hin];
          [destruct Hi as [-> | ->]; discriminate Hin |]).
  inversion Hin.
Qed.

Lemma set_rate_write_order_witness :
  ∃ o s' new,
    set_rate two_engines 150 (Some 50) (Some 300) (store, [])
    = (o, (s', [] ++ CallGetValue RATE_SUPPORTED (Returned 1) :: new))
    ∧ length new = length (writes new)
    ∧ writes new
      `prefix_of` (RATE, PyInt 150)
                    :: write_if_given RATE_MIN (Some 50)
                    ++ write_if_given RATE_MAX (Some 300)
    ∧ ((o = Ret tt
        ∧ writes new
          = (RATE, PyInt 150)
              :: write_if_given RATE_MIN (Some 50)
              ++ write_if_given RATE_MAX (Some 300)
        ∧ Forall answered new)
       ∨ (∃ e before c,
            o = Exc e ∧ new = before ++ [c]
            ∧ Forall answered before ∧ raised e c))
    ∧ (writes_return two_engines →
       o = Ret tt
       ∧ writes new
         = (RATE, PyInt 150)
             :: write_if_given RATE_MIN (Some 50)
             ++ write_if_given RATE_MAX (Some 300)).
Proof.
  apply (set_rate_write_order two_engines 150 (Some 50) (Some 300) 1 store []).
  - reflexivity.
  - lia.
Defined.

Lemma engine_used_resolves_current_engine_witness :
  engine_used two_engines (store, [])
  = (Ret (Some "A"),
     (store, [CallGetValue ENGINE (Returned 0);
              CallGetString (ENGINE + 0) (Returned (Some "A"))])).
Proof.
  apply (engine_used_resolves_current_engine two_engines 0 store []).
  reflexivity.
Defined.

Lemma get_engines_two_engines_witness :
  get_engines two_engines 3 (store, [])
  = (Ret [{| name := "A"; available := true; Id := 0 |};
          {| name := "B"; available := false; Id := 1 |}],
     (store,
      [] ++ [CallGetString (ENGINE + 0) (Returned (Some "A"));
             CallGetValue (ENGINE_AVAILABLE + 0) (Returned 1);
             CallGetString (ENGINE + 1) (Returned (Some "B"));
             CallGetValue (ENGINE_AVAILABLE + 1) (Returned 0);
             CallGetString (ENGINE + 2) (Returned (Some ""))])).
Proof.
  apply (get_engines_two_engines two_engines 3 store []).
  - intros s. reflexivity.
  - intros s. reflexivity.
  - intros s. reflexivity.
  - lia.
Defined.

Lemma get_engines_terminates_witness :
  ((∃ reads last s',
      (length reads ≤ 2)%nat
      ∧ Forall (λ p, p.1 ≠ "") reads ∧ falsy last
      ∧ get_engines two_engines 3 (store, [])
        = (Ret (descriptors_from 0 reads),
           (s', [] ++ enumeration_from 0 reads last))
      ∧ map Id (descriptors_from 0 reads)
        = py_range 0 (Z.of_nat (length reads))
      ∧ ((∀ (i : nat) s, (i < 2)%nat →
            ¬ empty_name (fst (speechGetString two_engines
                                 (ENGINE + Z.of_nat i) s))) →
         length reads = 2%nat))
   ∨ (∃ e st' before c,
        get_engines two_engines 3 (store, []) = (Exc e, st')
        ∧ snd st' = [] ++ before ++ [c]
        ∧ raised e c ∧ enumeration_read c))
  ∧ (strings_return two_engines → values_return two_engines →
     ∃ engines st',
       get_engines two_engines 3 (store, []) = (Ret engines, st'))
  ∧ ∀ fuel' : nat, (3 ≤ fuel')%nat →
      get_engines two_engines fuel' (store, [])
      = get_engines two_engines 3 (store, []).
Proof.
  apply (get_engines_terminates two_engines 2 3 store []).
  - intros s. exists (Some ""). split; [reflexivity | by right].
  - lia.
Defined.

Lemma engine_identifiers_consistent_witness :
  ∃ new,
    [CallGetString 0x40000 (Returned (Some "A"));
     CallGetValue 0x50000 (Returned 1);
     CallGetString 0x40001 (Returned (Some "B"));
     CallGetValue 0x50001 (Returned 0);
     CallGetString 0x40002 (Returned (Some ""))] = [] ++ new
    ∧ ∀ (i : nat) (e : Engine),
        [{| name := "A"; available := true; Id := 0 |};
         {| name := "B"; available := false; Id := 1 |}] !! i = Some e →
        Id e = Z.of_nat i
        ∧ ∃ v,
            new !! (2 * i)%nat
            = Some (CallGetString (ENGINE + Z.of_nat i)
                      (Returned (Some (name e))))
            ∧ new !! (2 * i + 1)%nat
              = Some (CallGetValue (ENGINE_AVAILABLE + Z.of_nat i)
                        (Returned v))
            ∧ available e = negb (v =? 0).
Proof.
  apply (engine_identifiers_consistent two_engines 3 store []
           [{| name := "A"; available := true; Id := 0 |};
            {| name := "B"; available := false; Id := 1 |}]
           (store,
            [CallGetString 0x40000 (Returned (Some "A"));
             CallGetValue 0x50000 (Returned 1);
             CallGetString 0x40001 (Returned (Some "B"));
             CallGetValue 0x50001 (Returned 0);
             CallGetString 0x40002 (Returned (Some ""))])).
  vm_compute. reflexivity.
Defined.

End Fixtures.

(** ** More on the loader *)

Section LoaderMore.
Import Loader Spec.

(** X1. [load] consults one folder only: two installations with the same
    package directory and architecture whose chosen folder holds the same
    thing give the same result, whatever else the file systems hold (the
    folder of the other architecture included). *)
Theorem load_consults_one_folder (dlopen : Linker) (e e' : Env)
  (opened : Process) :
  current_dir e = current_dir e' →
  architecture e = architecture e' →
  fs e !! lib_path e = fs e' !! lib_path e →
  load dlopen e opened = load dlopen e' opened.
Proof.
  intros Hdir Harch Hfs.
  assert (lib_path e' = lib_path e) as Hpath
    by (unfold lib_path, lib_folder; by rewrite Hdir, Harch).
  unfold load, _files_check, os_path_exists, os_listdir.
  fold (lib_path e) (lib_path e'). by rewrite Hpath, <- Hfs.
Qed.


(** X3. A regular file where the folder should be is not reported as a missing
    dependency: [os.path.exists] accepts it and [os.listdir] raises
    [NotADirectoryError], which leaves [load]; nothing is opened. *)
Theorem load_regular_file_for_folder (dlopen : Linker) (e : Env)
  (opened : Process) :
  fs e !! lib_path e = Some File →
  load dlopen e opened = (Exc NotADirectoryError, opened).
Proof.
  intros Hfile. unfold load, _files_check, os_path_exists, os_listdir.
  fold (lib_path e). by rewrite Hfile.
Qed.

End LoaderMore.

(** ** More on the facade *)

Section FacadeMore.
Context {S : Type} (lib : Native S).

Implicit Types (s : S) (log : list Call) (msg : string).

Lemma setters_setter (set : Z → option Z → option Z → M unit)
  (flag param pmin pmax : Z) :
  (set, (flag, param, pmin, pmax)) ∈ setters lib →
  (∃ text, set = setter lib flag param pmin pmax text)
  ∧ (param, pmax, pmin, flag) ∈ attribute_groups.
Proof.
  unfold setters, attribute_groups. intros Hin.
  repeat (apply elem_of_cons in Hin as [Hin | Hin];
          [injection Hin as -> -> -> -> ->; split;
           [eexists; reflexivity | set_solver] |]).
  inversion Hin.
Qed.


(** X5. When the read of its flag raises, a setter raises the same exception
    and attempts no write. *)
Theorem setters_flag_read_raises (set : Z → option Z → option Z → M unit)
  (flag param pmin pmax : Z) (v : Z) (mn mx : option Z) (e : exn) s log :
  (set, (flag, param, pmin, pmax)) ∈ setters lib →
  fst (speechGetValue lib flag s) = Raised e →
  set v mn mx (s, log)
  = (Exc e,
     (snd (speechGetValue lib flag s), log ++ [CallGetValue flag (Raised e)])).
Proof.
  intros Hin Hflag.
  destruct (setters_setter _ _ _ _ _ Hin) as [[text ->] _].
  unfold setter, get_value, mbind, M_bind.
  unfold bind at 1. unfold bind at 1. by rewrite foreign_run, Hflag.
Qed.

(** X6. A setter is not atomic: when the value has been written and the write
    of the minimum raises, the setter raises with it; the value stays
    written and the maximum is never attempted. *)
Theorem setters_partial_update (set : Z → option Z → option Z → M unit)
  (flag param pmin pmax : Z) (v m : Z) (mx : option Z) (f r : Z) (e : exn)
  s log :
  let s1 := snd (speechGetValue lib flag s) in
  let s2 := snd (speechSetValue lib param (PyInt v) s1) in
  (set, (flag, param, pmin, pmax)) ∈ setters lib →
  fst (speechGetValue lib flag s) = Returned f → f ≠ 0 →
  fst (speechSetValue lib param (PyInt v) s1) = Returned r →
  fst (speechSetValue lib pmin (PyInt m) s2) = Raised e →
  set v (Some m) mx (s, log)
  = (Exc e,
     (snd (speechSetValue lib pmin (PyInt m) s2),
      log ++ [CallGetValue flag (Returned f);
              CallSetValue param (PyInt v) (Returned r);
              CallSetValue pmin (PyInt m) (Raised e)])).
Proof.
  intros s1 s2 Hin Hflag Hf Hvalue Hmin.
  destruct (setters_setter _ _ _ _ _ Hin) as [[text ->] _].
  unfold setter, get_value, set_value, set_if_given, mbind, M_bind.
  unfold bind at 1. unfold bind at 1. rewrite foreign_run, Hflag.
  unfold mret, M_ret, ret. cbn [outcome_of].
  apply Z.eqb_neq in Hf. rewrite Hf. cbn [negb].
  rewrite bind_foreign. fold s1. rewrite Hvalue.
  unfold bind at 1. unfold set_value. rewrite bind_foreign.
  fold s2. rewrite Hmin. by rewrite <- !app_assoc.
Qed.

End FacadeMore.

(** ** More on the enumeration *)

Section EnumerationMore.
Context {S : Type} (lib : Native S).

Implicit Types (s : S) (log : list Call).

Lemma get_engines_loop_only_reads (fuel : nat) :
  ∀ (engines : list Engine) (i : Z) s log,
    0 ≤ i →
    ∃ new,
      snd (snd (get_engines_loop lib fuel engines i (s, log))) = log ++ new
      ∧ Forall enumeration_read new.
Proof.
  induction fuel as [| fuel IH]; intros engines i s log Hi.
  - exists []. by rewrite app_nil_r.
  - rewrite get_engines_loop_step. cbv zeta.
    assert (enumeration_read_name :
              ∀ r, enumeration_read (CallGetString (ENGINE + i) r))
      by (intros r; by exists i).
    assert (enumeration_read_value :
              ∀ r, enumeration_read (CallGetValue (ENGINE_AVAILABLE + i) r))
      by (intros r; by exists i).
    destruct (fst (speechGetString lib (ENGINE + i) s))
      as [[[| a nm'] |] | e].
    + eexists [_]. split; [done |]. by repeat constructor.
    + destruct (fst (speechGetValue lib (ENGINE_AVAILABLE + i) _))
        as [v | e].
      * match goal with
        | |- context [get_engines_loop lib fuel ?l (i + 1) (?s1, ?l1)] =>
            destruct (IH l (i + 1) s1 l1) as (new & -> & Hnew); [lia |]
        end.
        eexists (_ :: _ :: new). split; [by rewrite <- !app_assoc |].
        by repeat constructor.
      * eexists [_; _]. split; [done |]. by repeat constructor.
    + eexists [_]. split; [done |]. by repeat constructor.
    + eexists [_]. split; [done |]. by repeat constructor.
Qed.

(** X7. Whatever the library answers and however the enumeration ends,
    [get_engines] only reads: every foreign call it makes is a name read at
    ENGINE + i or a value read at ENGINE_AVAILABLE + i with [i >= 0]. It
    never speaks, writes a parameter or touches the braille display. *)
Theorem get_engines_only_reads (fuel : nat) s log :
  ∃ new,
    snd (snd (get_engines lib fuel (s, log))) = log ++ new
    ∧ Forall enumeration_read new.
Proof. by apply get_engines_loop_only_reads. Qed.

(** X8. When the first name read is empty or [None], [get_engines] returns the
    empty list after that single call; no availability is read. *)
Theorem get_engines_no_engine (fuel : nat) (last : option string) s log :
  fst (speechGetString lib ENGINE s) = Returned last →
  falsy last →
  (1 ≤ fuel)%nat →
  get_engines lib fuel (s, log)
  = (Ret [],
     (snd (speechGetString lib ENGINE s),
      log ++ [CallGetString ENGINE (Returned last)])).
Proof.
  intros Hname Hlast Hfuel. destruct fuel as [| fuel]; [lia |].
  unfold get_engines. rewrite get_engines_loop_step. cbv zeta.
  change (ENGINE + 0) with ENGINE. rewrite Hname.
  by destruct Hlast as [-> | ->].
Qed.

Section Named.
Variable N : Z.
Hypothesis named_below :
  ∀ (i : Z) s, 0 ≤ i < N →
    ∃ a nm, fst (speechGetString lib (ENGINE + i) s)
            = Returned (Some (String a nm)).
Hypothesis availability_below :
  ∀ (i : Z) s, 0 ≤ i < N →
    ∃ v, fst (speechGetValue lib (ENGINE_AVAILABLE + i) s) = Returned v.

Lemma get_engines_loop_still_running (fuel : nat) :
  ∀ (engines : list Engine) (i : Z) s log,
    0 ≤ i → i + Z.of_nat fuel ≤ N →
    ∃ st',
      get_engines_loop lib fuel engines i (s, log) = (OutOfFuel, st')
      ∧ length (snd st') = (length log + 2 * fuel)%nat.
Proof.
  induction fuel as [| fuel IH]; intros engines i s log Hi HN.
  - exists (s, log). split; [done |]. cbn. lia.
  - rewrite get_engines_loop_step. cbv zeta.
    destruct (named_below i s) as (a & nm & ->); [lia |].
    destruct (availability_below i
                (snd (speechGetString lib (ENGINE + i) s))) as [v ->];
      [lia |].
    match goal with
    | |- context [get_engines_loop lib fuel ?l (i + 1) (?s1, ?l1)] =>
        destruct (IH l (i + 1) s1 l1) as (st' & -> & Hlen); [lia | lia |]
    end.
    exists st'. split; [done |]. rewrite Hlen, length_app. cbn. lia.
Qed.

End Named.

(** X9. [get_engines] puts no cap on the number of engines: when the
    offsets 0 .. N-1 all have a non-empty name (and their availability
    reads return), the loop has not ended after any number of iterations
    up to [N], each iteration having made its two reads. Only an empty
    name or a read that raises ends it. *)
Theorem get_engines_runs_past_named_offsets (N : Z) (fuel : nat) s log :
  (∀ (i : Z) s, 0 ≤ i < N →
     ∃ a nm, fst (speechGetString lib (ENGINE + i) s)
             = Returned (Some (String a nm))) →
  (∀ (i : Z) s, 0 ≤ i < N →
     ∃ v, fst (speechGetValue lib (ENGINE_AVAILABLE + i) s) = Returned v) →
  Z.of_nat fuel ≤ N →
  ∃ st',
    get_engines lib fuel (s, log) = (OutOfFuel, st')
    ∧ length (snd st') = (length log + 2 * fuel)%nat.
Proof.
  intros Hnamed Hvalues Hfuel.
  apply (get_engines_loop_still_running N Hnamed Hvalues); lia.
Qed.

(** X10. [get_engines] raises nothing of its own: when it raises, the exception
    is the one its last foreign call, a read of the enumeration, raised.
    The descriptors collected before are not returned. *)
Theorem get_engines_raises_what_a_read_raised (fuel : nat) s log
  (e : exn) (st' : St) :
  get_engines lib fuel (s, log) = (Exc e, st') →
  ∃ before c,
    snd st' = log ++ before ++ [c] ∧ raised e c ∧ enumeration_read c.
Proof. intros Hrun. by eapply get_engines_loop_Exc in Hrun. Qed.

Lemma descriptors_from_names (reads : list (string * Z)) :
  ∀ i : Z,
    Forall (λ p, p.1 ≠ "") reads →
    Forall (λ e, name e ≠ "") (descriptors_from i reads).
Proof.
  induction reads as [| [nm v] rest IH]; intros i Hne; [constructor |].
  inversion Hne; subst. constructor; [done | by apply IH].
Qed.

Lemma descriptors_from_length (reads : list (string * Z)) :
  ∀ i : Z, length (descriptors_from i reads) = length reads.
Proof.
  induction reads as [| [nm v] rest IH]; intros i; simpl;
    [done | by rewrite IH].
Qed.

Lemma enumeration_from_length (reads : list (string * Z))
  (last : option string) :
  ∀ i : Z, length (enumeration_from i reads last)
           = (2 * length reads + 1)%nat.
Proof.
  induction reads as [| [nm v] rest IH]; intros i; simpl; [done |].
  rewrite IH. lia.
Qed.

(** X11. Whenever [get_engines] returns, no descriptor has an empty name, the
    ids are 0, 1, ... in this order (so no id occurs twice), and for [k]
    descriptors it made exactly 2k + 1 foreign calls. *)
Theorem get_engines_descriptors_well_formed (fuel : nat) s log
  (engines : list Engine) (st' : St) :
  get_engines lib fuel (s, log) = (Ret engines, st') →
  Forall (λ e, name e ≠ "") engines
  ∧ map Id engines = py_range 0 (Z.of_nat (length engines))
  ∧ NoDup (map Id engines)
  ∧ length (snd st') = (length log + 2 * length engines + 1)%nat.
Proof.
  intros Hrun.
  apply get_engines_loop_Ret in Hrun as (reads & last & Hne & _ & -> & ->).
  cbn [app]. rewrite descriptors_from_length.
  assert (map Id (descriptors_from 0 reads)
          = py_range 0 (Z.of_nat (length reads))) as HId.
  { rewrite descriptors_from_Id. unfold py_range.
    by rewrite Z.sub_0_r, Nat2Z.id. }
  split; [by apply descriptors_from_names |]. split; [done |]. split.
  - rewrite HId. unfold py_range. rewrite Z.sub_0_r, Nat2Z.id.
    apply NoDup_fmap_2; [| apply NoDup_seq].
    intros x y Hxy. lia.
  - rewrite length_app, enumeration_from_length. lia.
Qed.

End EnumerationMore.

(** ** The identifiers *)

Section Identifiers.

(** X12. No two identifiers of the module are equal. In each attribute group
    the maximum, the minimum and the support flag follow the value at +1,
    +2 and +3. Two different selector bases never meet as long as the
    offsets stay below 0x10000, and no such identifier falls on a plain
    one or on ENABLE_NATIVE_SPEECH or AUTO_ENGINE; at offset 0x10000 the
    name identifier of the enumeration reaches the availability base. *)
Theorem identifiers_do_not_collide :
  NoDup identifiers
  ∧ (∀ v mx mn sup, (v, mx, mn, sup) ∈ attribute_groups →
       mx = v + 1 ∧ mn = v + 2 ∧ sup = v + 3)
  ∧ (∀ b b' i j, b ∈ selector_bases → b' ∈ selector_bases → b ≠ b' →
       0 ≤ i < 0x10000 → 0 ≤ j < 0x10000 → b + i ≠ b' + j)
  ∧ (∀ b i, b ∈ selector_bases → 0 ≤ i →
       b + i ∉ plain_identifiers ++ [ENABLE_NATIVE_SPEECH; AUTO_ENGINE])
  ∧ (∀ i, ENGINE + (0x10000 + i) = ENGINE_AVAILABLE + i).
Proof.
  split; [apply (bool_decide_unpack _); by vm_compute |].
  split; [| split; [| split]].
  - intros v mx mn sup Hin. unfold attribute_groups in Hin.
    repeat (apply elem_of_cons in Hin as [Hin | Hin];
            [by injection Hin as -> -> -> -> |]).
    inversion Hin.
  - intros b b' i j Hb Hb' Hne Hi Hj. unfold selector_bases in *.
    repeat (apply elem_of_cons in Hb as [-> | Hb]);
      try (by inversion Hb);
      repeat (apply elem_of_cons in Hb' as [-> | Hb']);
      try (by inversion Hb');
      try done;
      unfold VOICE, LANGUAGE, SUBENGINE, ENGINE, ENGINE_AVAILABLE, USER_PARAM;
      lia.
  - intros b i Hb Hi Hin. unfold selector_bases in Hb.
    assert (0x10000 ≤ b + i) as Hlow.
    { repeat (apply elem_of_cons in Hb as [-> | Hb]);
        try (by inversion Hb);
        unfold VOICE, LANGUAGE, SUBENGINE, ENGINE, ENGINE_AVAILABLE,
          USER_PARAM; lia. }
    assert (Forall (λ x, x < 0x10000)
              (plain_identifiers ++ [ENABLE_NATIVE_SPEECH; AUTO_ENGINE]))
      as Hsmall by (by repeat constructor).
    rewrite Forall_forall in Hsmall. apply Hsmall in Hin. lia.
  - intros i. unfold ENGINE, ENGINE_AVAILABLE. lia.
Qed.

End Identifiers.

(** ** The example script *)

Import Loader Example.

Section ScriptFacts.
Context {S : Type} (lib : Native S).

Implicit Types (s : S) (log : list Call) (w : World S).









(** X13. On an installation that lacks a required file the script stops in the
    constructor with [DLLFileNotFoundError]: no module is opened, no
    foreign call is made, nothing is printed. *)
Theorem example_missing_dependency (dlopen : Linker) (e : Env)
  (fuel : nat) w :
  some_missing e →
  example lib dlopen e fuel w
  = (Exc (DLLFileNotFoundError "Missing dll files."), w).
Proof.
  intros Hmiss. unfold example, mbind, Script_bind, sbind at 1, __init__.
  rewrite (load_some_missing dlopen e (opened w) Hmiss). by destruct w.
Qed.



End ScriptFacts.

(** ** More statements at the fixtures *)

Section MoreFixtures.
Import Fixture Faults.

Example load_wrong_folder :
  load opens wrong_folder []
  = (Exc (DLLFileNotFoundError "Missing dll files."), []).
Proof. vm_compute. reflexivity. Qed.


Lemma incomplete_some_missing : some_missing incomplete.
Proof.
  right. eexists. split; [reflexivity |].
  exists "SAAPI32.dll". split.
  - apply py_in_elem_of. reflexivity.
  - intros Hin. apply py_in_elem_of in Hin. discriminate Hin.
Qed.


Lemma load_consults_one_folder_witness :
  load opens complete []
  = load opens {| current_dir := current_dir complete;
            architecture := architecture complete;
            fs := <[["site-packages"; "UniversalSpeech"; "lib"] := File]>
                    (fs complete) |} [].
Proof.
  apply (load_consults_one_folder opens complete _ []).
  - reflexivity.
  - reflexivity.
  - vm_compute. reflexivity.
Defined.


Lemma load_regular_file_for_folder_witness :
  load not_a_module file_for_folder [] = (Exc NotADirectoryError, []).
Proof.
  apply (load_regular_file_for_folder not_a_module file_for_folder []).
  reflexivity.
Defined.


Lemma setters_flag_read_raises_witness :
  set_volume dead 80 None None (tt, [])
  = (Exc access_violation,
     (tt, [] ++ [CallGetValue VOLUME_SUPPORTED (Raised access_violation)])).
Proof.
  apply (setters_flag_read_raises dead (set_volume dead)
           VOLUME_SUPPORTED VOLUME VOLUME_MIN VOLUME_MAX
           80 None None access_violation tt []).
  - apply list_elem_of_further. apply list_elem_of_here.
  - reflexivity.
Defined.

Lemma setters_partial_update_witness :
  set_inflexion picky 5 (Some 1) (Some 9) (tt, [])
  = (Exc access_violation,
     (tt,
      [] ++ [CallGetValue INFLEXION_SUPPORTED (Returned 1);
             CallSetValue INFLEXION (PyInt 5) (Returned 1);
             CallSetValue INFLEXION_MIN (PyInt 1)
               (Raised access_violation)])).
Proof.
  apply (setters_partial_update picky (set_inflexion picky)
           INFLEXION_SUPPORTED INFLEXION INFLEXION_MIN INFLEXION_MAX
           5 1 (Some 9) 1 1 access_violation tt []).
  - do 3 apply list_elem_of_further. apply list_elem_of_here.
  - reflexivity.
  - lia.
  - reflexivity.
  - reflexivity.
Defined.

Lemma get_engines_no_engine_witness :
  get_engines mute 1 (tt, [])
  = (Ret [], (tt, [] ++ [CallGetString ENGINE (Returned None)])).
Proof.
  apply (get_engines_no_engine mute 1 None tt []).
  - reflexivity.
  - by left.
  - lia.
Defined.

Lemma get_engines_runs_past_named_offsets_witness :
  ∃ st',
    get_engines endless 1000 (tt, []) = (OutOfFuel, st')
    ∧ length (snd st') = (length (@nil Call) + 2 * 1000)%nat.
Proof.
  apply (get_engines_runs_past_named_offsets endless 1000 1000 tt []).
  - intros i s Hi. eexists _, _. reflexivity.
  - intros i s Hi. eexists. reflexivity.
  - lia.
Defined.

Lemma get_engines_raises_what_a_read_raised_witness :
  ∃ before c,
    [CallGetString ENGINE (Returned (Some "A"));
     CallGetValue ENGINE_AVAILABLE (Raised access_violation)]
    = [] ++ before ++ [c]
    ∧ raised access_violation c ∧ enumeration_read c.
Proof.
  apply (get_engines_raises_what_a_read_raised picky 1 tt []
           access_violation
           (tt, [CallGetString ENGINE (Returned (Some "A"));
                 CallGetValue ENGINE_AVAILABLE (Raised access_violation)])).
  reflexivity.
Defined.

Lemma get_engines_descriptors_well_formed_witness :
  Forall (λ e, name e ≠ "")
    [{| name := "A"; available := true; Id := 0 |};
     {| name := "B"; available := false; Id := 1 |}]
  ∧ map Id [{| name := "A"; available := true; Id := 0 |};
            {| name := "B"; available := false; Id := 1 |}]
    = py_range 0 (Z.of_nat 2)
  ∧ NoDup (map Id [{| name := "A"; available := true; Id := 0 |};
                   {| name := "B"; available := false; Id := 1 |}])
  ∧ length [CallGetString 0x40000 (Returned (Some "A"));
            CallGetValue 0x50000 (Returned 1);
            CallGetString 0x40001 (Returned (Some "B"));
            CallGetValue 0x50001 (Returned 0);
            CallGetString 0x40002 (Returned (Some ""))]
    = (length (@nil Call) + 2 * 2 + 1)%nat.
Proof.
  apply (get_engines_descriptors_well_formed two_engines 3 store []
           [{| name := "A"; available := true; Id := 0 |};
            {| name := "B"; available := false; Id := 1 |}]
           (store,
            [CallGetString 0x40000 (Returned (Some "A"));
             CallGetValue 0x50000 (Returned 1);
             CallGetString 0x40001 (Returned (Some "B"));
             CallGetValue 0x50001 (Returned 0);
             CallGetString 0x40002 (Returned (Some ""))])).
  vm_compute. reflexivity.
Defined.

Lemma example_missing_dependency_witness :
  example two_engines opens incomplete 3 (fresh store)
  = (Exc (DLLFileNotFoundError "Missing dll files."), fresh store).
Proof.
  apply (example_missing_dependency two_engines opens incomplete 3
           (fresh store)).
  exact incomplete_some_missing.
Defined.



Example example_on_mute :
  example mute opens complete 1 (fresh tt)
  = (Ret tt,
     {| opened := [["site-packages"; "UniversalSpeech"; "lib64";
                    "UniversalSpeech.dll"]];
        native := tt;
        calls := [CallSetValue ENABLE_NATIVE_SPEECH (PyBool true) (Returned 0);
                  CallSay "Hello, world." true (Returned 0);
                  CallBraille "Hello, world." (Returned 1);
                  CallGetValue ENGINE (Returned 0);
                  CallGetString ENGINE (Returned None);
                  CallGetString ENGINE (Returned None);
                  CallGetValue RATE_SUPPORTED (Returned 0)];
        stdout := [PStr "You are using None."; PList [];
                   PExn (UnsupportedError
                           "Set rate is not supported with the current engine.")]
     |}).
Proof. vm_compute. reflexivity. Qed.

Example example_module_does_not_open :
  example mute not_a_module complete 1 (fresh tt)
  = (Exc (OSError "[WinError 193] %1 is not a valid Win32 application"),
     fresh tt).
Proof. vm_compute. reflexivity. Qed.

End MoreFixtures.
